(** * Download orchestration of candy: [src/electron/ipc/events/downloads.js]

    A shallow embedding of [startDownload], of the per-stream event handlers
    it registers ([progress], [end], [error]), of the continuation of the
    encoder promise and of [cancelDownload], followed by the properties of
    the download core that hold (or fail) on that embedding.

    Conventions.
    - JavaScript numbers that count bytes or milliseconds are integers well
      below 2^53, where double arithmetic is exact: they are modelled by [Z].
      The speed field is a product that leaves this range, so it is computed
      in IEEE 754 binary64 arithmetic ([SpecFloat], precision 53).
    - Strings are [string]; the characters the code inspects are all ASCII.
    - The closure variables of one [startDownload] call form a [Session]
      record; the per-iteration [let] bindings of its [for] loop form one
      [Closure] per stream.
    - Collaborators that are not part of this file ([createUID] and
      [mkdirIfNotPresent] of js/utils, [path.join], [path.resolve]) are
      parameters of the development. *)

From stdpp Require Import gmap strings list fin_maps pretty.
From Stdlib Require Import Ascii QArith.
From Stdlib Require SpecFloat.

Open Scope Z_scope.

(** ** Title sanitisation (line 125)

    The title goes through two global regular-expression replacements: the
    first turns every character of a ten-character class into a space, the
    second turns every run of spaces into one space. *)

Module Title.

Definition dquote : ascii := ascii_of_nat 34.

(** The character class of the first pattern: slash, backslash, question
    mark, percent, star, colon, bar, double quote, less-than, greater-than. *)
Definition forbidden : list ascii :=
  ["/"; "\"; "?"; "%"; "*"; ":"; "|"; dquote; "<"; ">"]%char.

Definition in_class (cls : list ascii) (a : ascii) : bool :=
  bool_decide (a ∈ cls).

(** [s.replace(/[cls]/g, rep)]: a global pattern that matches exactly one
    character; the scan restarts right after each match. *)
Fixpoint replace_class (cls : list ascii) (rep : string) (s : string) : string :=
  match s with
  | EmptyString => EmptyString
  | String a s' =>
      if in_class cls a then rep +:+ replace_class cls rep s'
      else String a (replace_class cls rep s')
  end.

(** [s.replace(/c+/g, rep)]: [+] is greedy, so one match swallows a whole
    maximal run of [c]. [in_run] tells that the scanner is inside a match
    whose replacement has already been emitted. *)
Fixpoint replace_runs (c : ascii) (rep : string) (in_run : bool) (s : string) : string :=
  match s with
  | EmptyString => EmptyString
  | String a s' =>
      if Stdlib.Strings.Ascii.eqb a c then
        if in_run then replace_runs c rep true s'
        else rep +:+ replace_runs c rep true s'
      else String a (replace_runs c rep false s')
  end.

Definition filteredTitle (title : string) : string :=
  replace_runs " " " " false (replace_class forbidden " " title).

(** The wording of the specification, kept apart from the code above:
    every forbidden character becomes one space ... *)
Fixpoint spec_blank (s : string) : string :=
  match s with
  | EmptyString => EmptyString
  | String a s' =>
      String (if bool_decide (a ∈ forbidden) then " "%char else a) (spec_blank s')
  end.

Definition starts_with_space (s : string) : bool :=
  match s with
  | String a _ => Stdlib.Strings.Ascii.eqb a " "
  | EmptyString => false
  end.

(** ... and of every run of consecutive spaces only one space is kept: a
    space that is followed by another space is dropped. *)
Fixpoint spec_collapse (s : string) : string :=
  match s with
  | EmptyString => EmptyString
  | String a s' =>
      if Stdlib.Strings.Ascii.eqb a " " && starts_with_space s' then spec_collapse s'
      else String a (spec_collapse s')
  end.

Definition spec_sanitize (title : string) : string :=
  spec_collapse (spec_blank title).

(** No two neighbouring characters of [s] are both spaces. *)
Fixpoint no_double_space (s : string) : Prop :=
  match s with
  | EmptyString => True
  | String a s' => (a = " "%char → starts_with_space s' = false) ∧ no_double_space s'
  end.

Fixpoint chars (s : string) : list ascii :=
  match s with
  | EmptyString => []
  | String a s' => a :: chars s'
  end.

End Title.

(** ** Data *)

Inductive Status := Progress | Convert | Finish | Errored | Cancelled.

(** One element of [sources]: the loop destructures [{itag, container}]. *)
Record Source := { itag : Z; container : string }.

(** The fields of [video] that the file reads; [length_seconds] is passed
    through [Number]. *)
Record Video := {
  video_url : string;
  thumbnail_url : string;
  length_seconds : Z;
  title : string;
  author_name : string
}.

(** First argument of [startDownload]; [playlist] is optional and only its
    [title] is read. *)
Record Request := {
  playlist : option string;
  format : string;
  video : Video;
  sources : list Source
}.

(** What [getSettings] resolves to, as far as the file reads it. *)
Record Settings := {
  temporaryDirectory : string;
  settingsDownloadDirectory : string;
  createChannelDirectory : bool
}.

(** Payload of the [add-download] message (lines 54-70). *)
Record AddDownload := {
  add_id : string;
  add_destination : option string;
  add_sources : list Source;
  add_size : Z;
  add_speed : Z;
  add_progress : Z;
  add_status : Status;
  add_startTimestamp : Z;
  add_video : Video
}.

(** The [props] patch handed to [update]; an absent key is [None]. *)
Record Props := {
  p_progress : option Z;
  p_speed : option SpecFloat.spec_float;
  p_size : option Z;
  p_status : option Status;
  p_endTimestamp : option Z;
  p_destinationFile : option string
}.

Definition progressProps (progress : Z) (speed : SpecFloat.spec_float) (size : Z) : Props :=
  {| p_progress := Some progress; p_speed := Some speed; p_size := Some size;
     p_status := None; p_endTimestamp := None; p_destinationFile := None |}.

Definition convertProps (progress size : Z) : Props :=
  {| p_progress := Some progress; p_speed := None; p_size := Some size;
     p_status := Some Convert; p_endTimestamp := None; p_destinationFile := None |}.

Definition finishProps (endTimestamp : Z) (destinationFile : string) : Props :=
  {| p_progress := None; p_speed := None; p_size := None;
     p_status := Some Finish; p_endTimestamp := Some endTimestamp;
     p_destinationFile := Some destinationFile |}.

Definition statusProps (st : Status) : Props :=
  {| p_progress := None; p_speed := None; p_size := None;
     p_status := Some st; p_endTimestamp := None; p_destinationFile := None |}.

(** The value an [error] event carries: [destroy('cancelled')] passes a
    string, a transport failure passes an [Error] object. *)
Inductive Cause :=
| CauseString (s : string)
| CauseError (message : string).

(** [e !== 'cancelled'] is false for the string [cancelled] only. *)
Definition is_cancelled (e : Cause) : bool :=
  match e with
  | CauseString s => bool_decide (s = "cancelled")
  | CauseError _ => false
  end.

(** Modelled from the spec: the stream object that [ytdl] returns is not part
    of this repository; of it only [destroy(reason)] matters here, which
    aborts the transfer and is idempotent. *)
Inductive Fetcher :=
| Live
| Destroyed (reason : option Cause).

Definition destroy (reason : option Cause) (f : Fetcher) : Fetcher :=
  match f with
  | Live => Destroyed reason
  | Destroyed _ => f
  end.

Definition cancelledReason : option Cause := Some (CauseString "cancelled").

(** The bindings of one iteration of the [for] loop (lines 82, 95-97), which
    the three handlers of that stream close over. *)
Record Closure := {
  destinationDirectory : string;
  lastProgressTimestamp : Z;
  lastProgress : Z;
  lastSize : Z
}.

Inductive EncoderOp := OpConvert | OpMerge.

(** One call [encoder[op](input, output)] (line 139). *)
Record EncoderCall := {
  op : EncoderOp;
  input : string;
  output : string
}.

(** The variables of one [startDownload] call that outlive it.
    - [updates]: the arguments [update] was called with, oldest first;
      [throttleEvent] (js/utils) decides which of them reach the renderer.
    - [encoderCalls]: the calls made to the encoder, oldest first.
    - [pending]: the [destinationFile] captured by each encoder promise that
      has not settled yet. *)
Record Session := {
  downloadId : string;
  request : Request;
  settings : Settings;
  downloadDirectory : string;
  totalProgress : Z;
  totalSize : Z;
  done : nat;
  destiantions : list string;
  sourceStreams : list Fetcher;
  closures : list Closure;
  updates : list Props;
  encoderCalls : list EncoderCall;
  pending : list string
}.

(** The process: the temporary files on disk (the files the streams are
    piped to; the directories that [mkdirIfNotPresent] makes and the file
    that the encoder writes are not tracked), the sessions created so far (a
    session is referred to by its position), the module-level
    [activeDownloads] object (its own properties, and its prototype when an
    assignment under the key [__proto__] has replaced the initial one,
    [Object.prototype], by the handle of a session), the [add-download]
    messages sent, and the number of [createUID] calls. *)
Record World := {
  files : gset string;
  heap : list Session;
  activeDownloads : gmap string nat;
  prototype : option nat;
  sent : list AddDownload;
  uidCalls : nat
}.

Definition emptyWorld : World :=
  {| files := ∅; heap := []; activeDownloads := ∅; prototype := None;
     sent := []; uidCalls := 0 |}.

(** Events of one stream; a [progress] event carries the chunk length, the
    bytes downloaded so far and the total size. *)
Inductive StreamEvent :=
| EvProgress (chunk progress size : Z)
| EvEnd
| EvError (e : Cause).

(** What can happen to the process. [now] and [now'] are the values that the
    calls of [Date.now] return while the handler runs. *)
Inductive Event :=
| StartDownload (req : Request) (cfg : Settings) (now : Z)
| Stream (ref : nat) (i : nat) (ev : StreamEvent) (now now' : Z)
| EncoderSettled (ref : nat) (ok : bool) (now : Z)
| CancelDownload (id : string).

(** ** Field updates *)

Definition update (props : Props) (s : Session) : Session :=
  {| downloadId := downloadId s; request := request s; settings := settings s;
     downloadDirectory := downloadDirectory s;
     totalProgress := totalProgress s; totalSize := totalSize s; done := done s;
     destiantions := destiantions s; sourceStreams := sourceStreams s;
     closures := closures s; updates := updates s ++ [props];
     encoderCalls := encoderCalls s; pending := pending s |}.

Definition setTotals (tp ts : Z) (s : Session) : Session :=
  {| downloadId := downloadId s; request := request s; settings := settings s;
     downloadDirectory := downloadDirectory s;
     totalProgress := tp; totalSize := ts; done := done s;
     destiantions := destiantions s; sourceStreams := sourceStreams s;
     closures := closures s; updates := updates s;
     encoderCalls := encoderCalls s; pending := pending s |}.

Definition setClosures (cs : list Closure) (s : Session) : Session :=
  {| downloadId := downloadId s; request := request s; settings := settings s;
     downloadDirectory := downloadDirectory s;
     totalProgress := totalProgress s; totalSize := totalSize s; done := done s;
     destiantions := destiantions s; sourceStreams := sourceStreams s;
     closures := cs; updates := updates s;
     encoderCalls := encoderCalls s; pending := pending s |}.

Definition setDone (n : nat) (s : Session) : Session :=
  {| downloadId := downloadId s; request := request s; settings := settings s;
     downloadDirectory := downloadDirectory s;
     totalProgress := totalProgress s; totalSize := totalSize s; done := n;
     destiantions := destiantions s; sourceStreams := sourceStreams s;
     closures := closures s; updates := updates s;
     encoderCalls := encoderCalls s; pending := pending s |}.

Definition setSourceStreams (fs : list Fetcher) (s : Session) : Session :=
  {| downloadId := downloadId s; request := request s; settings := settings s;
     downloadDirectory := downloadDirectory s;
     totalProgress := totalProgress s; totalSize := totalSize s; done := done s;
     destiantions := destiantions s; sourceStreams := fs;
     closures := closures s; updates := updates s;
     encoderCalls := encoderCalls s; pending := pending s |}.

Definition setDownloadDirectory (d : string) (s : Session) : Session :=
  {| downloadId := downloadId s; request := request s; settings := settings s;
     downloadDirectory := d;
     totalProgress := totalProgress s; totalSize := totalSize s; done := done s;
     destiantions := destiantions s; sourceStreams := sourceStreams s;
     closures := closures s; updates := updates s;
     encoderCalls := encoderCalls s; pending := pending s |}.

(** [encoder[op](input, output)]: the call is recorded and its promise is
    pending. *)
Definition callEncoder (c : EncoderCall) (s : Session) : Session :=
  {| downloadId := downloadId s; request := request s; settings := settings s;
     downloadDirectory := downloadDirectory s;
     totalProgress := totalProgress s; totalSize := totalSize s; done := done s;
     destiantions := destiantions s; sourceStreams := sourceStreams s;
     closures := closures s; updates := updates s;
     encoderCalls := encoderCalls s ++ [c]; pending := pending s ++ [output c] |}.

Definition setPending (ps : list string) (s : Session) : Session :=
  {| downloadId := downloadId s; request := request s; settings := settings s;
     downloadDirectory := downloadDirectory s;
     totalProgress := totalProgress s; totalSize := totalSize s; done := done s;
     destiantions := destiantions s; sourceStreams := sourceStreams s;
     closures := closures s; updates := updates s;
     encoderCalls := encoderCalls s; pending := ps |}.

(** ** File system *)

(** [fs.unlinkSync(p)] removes [p], and throws when there is no such file. *)
Definition unlinkSync (p : string) (fs : gset string) : option (gset string) :=
  if decide (p ∈ fs) then Some (fs ∖ {[p]}) else None.

(** [paths.forEach(fs.unlinkSync)]: the files on disk afterwards, and whether
    the loop was left by an exception (the remaining paths are then not
    visited). *)
Fixpoint unlinkAll (paths : list string) (fs : gset string) : gset string * bool :=
  match paths with
  | [] => (fs, false)
  | p :: rest =>
      match unlinkSync p fs with
      | Some fs' => unlinkAll rest fs'
      | None => (fs, true)
      end
  end.

(** ** Handlers that touch one session only *)

(** The binary64 number nearest to an integer (the integer itself up to
    2^53). *)
Definition numberOfZ (z : Z) : SpecFloat.spec_float :=
  SpecFloat.binary_normalize 53 1024 z 0 false.

(** [x.toFixed(1)] gives a numeral with one decimal, which [*] converts back
    to a number; [x] is a difference of two [Date.now] values, a number
    without fraction, and the numeral denotes that same number. *)
Definition toFixed1 (x : SpecFloat.spec_float) : SpecFloat.spec_float := x.

(** The [speed] expression of line 104,
    [((lastProgress + progress) / 4) * (now - lastProgressTimestamp).toFixed(1)],
    in binary64: every operation rounds to nearest even. *)
Definition speedOf (lastProgress progress now lastProgressTimestamp : Z)
  : SpecFloat.spec_float :=
  SpecFloat.SFmul 53 1024
    (SpecFloat.SFdiv 53 1024
       (SpecFloat.SFadd 53 1024 (numberOfZ lastProgress) (numberOfZ progress))
       (numberOfZ 4))
    (toFixed1 (SpecFloat.SFsub 53 1024 (numberOfZ now) (numberOfZ lastProgressTimestamp))).

(** [sourceStream.on('progress', ...)] of stream [i] (lines 98-111). *)
Definition on_progress (i : nat) (progress size now now' : Z) (s : Session) : Session :=
  match closures s !! i with
  | None => s
  | Some c =>
      let totalProgress' := totalProgress s + (progress - lastProgress c) in
      let totalSize1 := totalSize s - lastSize c in
      let speed := speedOf (lastProgress c) progress now (lastProgressTimestamp c) in
      let totalSize' := totalSize1 + size in
      let s1 := update (progressProps totalProgress' speed totalSize')
                  (setTotals totalProgress' totalSize' s) in
      setClosures
        (<[i := {| destinationDirectory := destinationDirectory c;
                   lastProgressTimestamp := now';
                   lastProgress := progress;
                   lastSize := size |}]> (closures s1)) s1
  end.

(** [s.destroy('cancelled')] for every stream, then the [cancelled] update
    (lines 173-176). *)
Definition cancel (s : Session) : Session :=
  update (statusProps Cancelled)
    (setSourceStreams (destroy cancelledReason <$> sourceStreams s) s).

(** [sourceStream.on('error', ...)] (lines 158-168); [console.error] is not
    modelled. When an [unlinkSync] throws, the handler is left before
    [update] is reached. *)
Definition on_error (i : nat) (e : Cause) (sf : Session * gset string)
  : Session * gset string :=
  let (s, fs) := sf in
  match closures s !! i with
  | None => sf
  | Some _ =>
      if is_cancelled e then sf
      else
        let s1 := setSourceStreams (destroy None <$> sourceStreams s) s in
        let (fs', threw) := unlinkAll (destiantions s1) fs in
        if threw then (s1, fs') else (update (statusProps Errored) s1, fs')
  end.

(** Continuation of the encoder promise (lines 139-154): [then] or [catch],
    and [finally] in both cases. *)
Definition on_settled (ok : bool) (now : Z) (sf : Session * gset string)
  : Session * gset string :=
  let (s, fs) := sf in
  match pending s with
  | [] => sf
  | destinationFile :: rest =>
      let s1 := setPending rest s in
      let s2 := if ok then update (finishProps now destinationFile) s1
                else update (statusProps Errored) s1 in
      (s2, fst (unlinkAll (destiantions s2) fs))
  end.

(** The status a receiver holds after applying the patches in order; the
    [add-download] payload starts it at [Progress]. *)
Definition applyStatus (st : Status) (p : Props) : Status :=
  match p_status p with
  | Some st' => st'
  | None => st
  end.

Definition recordedStatus (s : Session) : Status :=
  foldl applyStatus Progress (updates s).


Section Downloads.

(** Collaborators outside this file. [createUID k] is what the [k]-th call of
    [createUID] in the life of the process returns; [mkdirIfNotPresent]
    is used for the path it returns. *)
Variable createUID : nat → string.
Variable mkdirIfNotPresent : string → string.
Variable path_join : string → string → string.
Variable path_resolve : string → string → string.

(** ** The [end] handler (lines 113-156) *)

Definition on_end (i : nat) (s : Session) : Session :=
  match closures s !! i with
  | None => s
  | Some c =>
      let s1 := setDone (S (done s)) s in
      if decide (done s1 = length (sources (request s1))) then
        let s2 := update (convertProps (totalSize s1) (totalSize s1)) s1 in
        let filteredTitle := Title.filteredTitle (title (video (request s2))) in
        let s3 :=
          if createChannelDirectory (settings s2) then
            setDownloadDirectory
              (mkdirIfNotPresent
                 (path_resolve (downloadDirectory s2) (author_name (video (request s2))))) s2
          else s2 in
        let s4 :=
          match playlist (request s3) with
          | Some playlistTitle =>
              setDownloadDirectory
                (mkdirIfNotPresent (path_resolve (downloadDirectory s3) playlistTitle)) s3
          | None => s3
          end in
        let destinationFile :=
          path_join (downloadDirectory s4) (filteredTitle +:+ "." +:+ format (request s4)) in
        callEncoder
          {| op := if decide (length (sources (request s4)) = 1%nat)
                   then OpConvert else OpMerge;
             input := destinationDirectory c;
             output := destinationFile |} s4
      else s1
  end.

(** One event of stream [i] delivered to the handlers of its session. *)
Definition deliver (i : nat) (ev : StreamEvent) (now now' : Z)
    (sf : Session * gset string) : Session * gset string :=
  match ev with
  | EvProgress _ progress size => (on_progress i progress size now now' sf.1, sf.2)
  | EvEnd => (on_end i sf.1, sf.2)
  | EvError e => on_error i e sf
  end.

(** ** [startDownload] (lines 47-180) *)

(** What the [for] loop of lines 81-169 builds. *)
Record Spawned := {
  sp_uidCalls : nat;
  sp_files : gset string;
  sp_destiantions : list string;
  sp_sourceStreams : list Fetcher;
  sp_closures : list Closure
}.

(** The loop over [sources]: a fresh temporary path, a new stream piped into
    a file at that path, both pushed, and the bindings of the handlers. *)
Fixpoint spawn (tmp : string) (srcs : list Source) (acc : Spawned) : Spawned :=
  match srcs with
  | [] => acc
  | src :: rest =>
      let dest := path_join tmp (createUID (sp_uidCalls acc) +:+ "." +:+ container src) in
      spawn tmp rest
        {| sp_uidCalls := S (sp_uidCalls acc);
           sp_files := {[dest]} ∪ sp_files acc;
           sp_destiantions := sp_destiantions acc ++ [dest];
           sp_sourceStreams := sp_sourceStreams acc ++ [Live];
           sp_closures := sp_closures acc ++
             [{| destinationDirectory := dest; lastProgressTimestamp := 0;
                 lastProgress := 0; lastSize := 0 |}] |}
  end.

Definition addDownloadPayload (id : string) (req : Request) (now : Z) : AddDownload :=
  {| add_id := id;
     add_destination := None;
     add_sources := sources req;
     add_size := 1;
     add_speed := 0;
     add_progress := 0;
     add_status := Progress;
     add_startTimestamp := now;
     add_video := video req |}.

(** The session that a [startDownload] call leaves behind, given the id and
    the result of the loop. *)
Definition newSession (id : string) (req : Request) (cfg : Settings) (sp : Spawned)
  : Session :=
  {| downloadId := id; request := req; settings := cfg;
     downloadDirectory := settingsDownloadDirectory cfg;
     totalProgress := 0; totalSize := 0; done := 0;
     destiantions := sp_destiantions sp;
     sourceStreams := sp_sourceStreams sp;
     closures := sp_closures sp;
     updates := []; encoderCalls := []; pending := [] |}.

Definition spawnIn (w : World) (req : Request) (cfg : Settings) : Spawned :=
  spawn (temporaryDirectory cfg) (sources req)
    {| sp_uidCalls := S (uidCalls w); sp_files := files w;
       sp_destiantions := []; sp_sourceStreams := []; sp_closures := [] |}.

Definition startDownload (req : Request) (cfg : Settings) (now : Z) (w : World)
  : World * string :=
  let id := createUID (uidCalls w) in
  let sp := spawnIn w req cfg in
  ({| files := sp_files sp;
      heap := heap w ++ [newSession id req cfg sp];
      activeDownloads :=
        if decide (id = "__proto__") then activeDownloads w
        else <[id := length (heap w)]> (activeDownloads w);
      prototype :=
        if decide (id = "__proto__") then Some (length (heap w)) else prototype w;
      sent := sent w ++ [addDownloadPayload id req now];
      uidCalls := sp_uidCalls sp |},
   "ok").

(** ** [cancelDownload] (lines 188-192) *)

Definition setHeap (ref : nat) (s : Session) (fs : gset string) (w : World) : World :=
  {| files := fs; heap := <[ref := s]> (heap w);
     activeDownloads := activeDownloads w; prototype := prototype w;
     sent := sent w; uidCalls := uidCalls w |}.

(** How the promise of an [async] method settles. A string stands for the
    promise resolved with it. *)
Inductive Reply :=
| Resolved (value : string)
| Rejected (error : string).

Coercion Resolved : string >-> Reply.

(** The property names that every plain object inherits from
    [Object.prototype]. *)
Definition objectPrototypeNames : list string :=
  ["constructor"; "__defineGetter__"; "__defineSetter__"; "hasOwnProperty";
   "__lookupGetter__"; "__lookupSetter__"; "isPrototypeOf";
   "propertyIsEnumerable"; "toString"; "valueOf"; "__proto__"; "toLocaleString"].

(** What [activeDownloads[downloadId]] evaluates to: the handle of a
    session, some other truthy value (a function or object found along the
    prototype chain, none of which has a [cancel] method), or [undefined]. *)
Inductive Found :=
| Handle (ref : nat)
| OtherValue
| NotFound.

(** Property lookup on [activeDownloads]. The key [__proto__] is never an
    own property (an assignment under it replaces the prototype instead) and
    reads the prototype. Any other key is looked up among the own properties
    first and then along the prototype chain, which is [Object.prototype],
    preceded by the handle (whose only own property is [cancel]) if the
    prototype was replaced. *)
Definition lookupDownload (w : World) (id : string) : Found :=
  if decide (id = "__proto__") then
    match prototype w with
    | Some ref => Handle ref
    | None => OtherValue
    end
  else
    match activeDownloads w !! id with
    | Some ref => Handle ref
    | None =>
        if decide (id ∈ objectPrototypeNames) then OtherValue
        else
          match prototype w with
          | Some _ => if decide (id = "cancel") then OtherValue else NotFound
          | None => NotFound
          end
    end.

(** [item && item.cancel()], then ['ok']; calling the missing [cancel] of a
    value that is no handle throws a [TypeError], which rejects the promise. *)
Definition cancelDownload (id : string) (w : World) : World * Reply :=
  match lookupDownload w id with
  | Handle ref =>
      (match heap w !! ref with
       | Some s => setHeap ref (cancel s) (files w) w
       | None => w
       end,
       Resolved "ok")
  | OtherValue => (w, Rejected "TypeError: item.cancel is not a function")
  | NotFound => (w, Resolved "ok")
  end.

(** ** The process as a transition system *)

Definition step (w : World) (ev : Event) : World :=
  match ev with
  | StartDownload req cfg now => (startDownload req cfg now w).1
  | Stream ref i sev now now' =>
      match heap w !! ref with
      | Some s =>
          let sf := deliver i sev now now' (s, files w) in
          setHeap ref sf.1 sf.2 w
      | None => w
      end
  | EncoderSettled ref ok now =>
      match heap w !! ref with
      | Some s =>
          let sf := on_settled ok now (s, files w) in
          setHeap ref sf.1 sf.2 w
      | None => w
      end
  | CancelDownload id => (cancelDownload id w).1
  end.

Definition run (w : World) (evs : list Event) : World := foldl step w evs.

End Downloads.

(** ** Concrete collaborators and requests, for the scenarios below *)

Module Demo.

Definition uid (k : nat) : string := String (ascii_of_nat (97 + k)) EmptyString.

Definition join (a b : string) : string := a +:+ "/" +:+ b.

Definition mkdir (p : string) : string := p.

Definition clip : Video :=
  {| video_url := "https://example.org/watch?v=1"; thumbnail_url := "thumb.jpg";
     length_seconds := 60; title := "My//Video:  Part*1"; author_name := "ann" |}.

Definition cfg : Settings :=
  {| temporaryDirectory := "tmp"; settingsDownloadDirectory := "out";
     createChannelDirectory := false |}.


Definition oneStream : Request :=
  {| playlist := None; format := "mp3"; video := clip;
     sources := [{| itag := 140; container := "m4a" |}] |}.

Definition twoStreams : Request :=
  {| playlist := None; format := "mkv"; video := clip;
     sources := [{| itag := 137; container := "mp4" |};
                 {| itag := 140; container := "m4a" |}] |}.

Definition step : World → Event → World := step uid mkdir join join.

Definition run : World → list Event → World := run uid mkdir join join.

(** The world right after [startDownload] of each request at time 5. *)
Definition started (req : Request) : World := run emptyWorld [StartDownload req cfg 5].

(** Two streams report progress, the second one with a size that shrinks
    from 2500 to 2000; then the first stream ends. *)
Definition samples : list Event :=
  [StartDownload twoStreams cfg 5;
   Stream 0 0 (EvProgress 100 100 1000) 10 10;
   Stream 0 1 (EvProgress 50 50 2500) 11 11;
   Stream 0 1 (EvProgress 50 100 2000) 20 20;
   Stream 0 0 (EvProgress 900 1000 1000) 30 30;
   Stream 0 1 (EvProgress 1900 2000 2000) 31 31;
   Stream 0 0 EvEnd 32 32].

(** One stream ends, the conversion succeeds. *)
Definition finished : World :=
  run (started oneStream) [Stream 0 0 EvEnd 6 6; EncoderSettled 0 true 8].


End Demo.

(** ** Vocabulary of the statements *)

(** Sum of one field over the streams of a session. *)
Definition sumOf (f : Closure → Z) (cs : list Closure) : Z :=
  foldr (λ c acc, f c + acc) 0 cs.

(** A patch that carries both [progress] and [size] has [progress ≤ size]. *)
Definition patchOk (p : Props) : Prop :=
  ∀ pr sz, p_progress p = Some pr → p_size p = Some sz → pr ≤ sz.

(** A [progress] sample reports no more bytes than its size. *)
Definition sampleOk (ev : Event) : Prop :=
  match ev with
  | Stream _ _ (EvProgress _ progress size) _ _ => progress ≤ size
  | _ => True
  end.


(** The integer a binary64 number is, if it is one. *)
Definition integerValue (d : SpecFloat.spec_float) : option Z :=
  match d with
  | SpecFloat.S754_zero _ => Some 0
  | SpecFloat.S754_finite sg m e =>
      let z := if sg then Z.neg m else Z.pos m in
      if 0 <=? e then Some (z * 2 ^ e)
      else if Z.pos m mod 2 ^ (- e) =? 0 then Some (z / 2 ^ (- e))
      else None
  | _ => None
  end.

(** The speed as the specification words it: the difference of the two most
    recent progress values over the time elapsed since the previous sample. *)
Definition specSpeed (lastProgress progress elapsed : Z) : Q :=
  (inject_Z (progress - lastProgress) / inject_Z elapsed)%Q.


(** The running totals are the sums, over the streams, of what each stream
    reported last. *)
Definition totalsAgree (s : Session) : Prop :=
  totalProgress s = sumOf lastProgress (closures s) ∧
  totalSize s = sumOf lastSize (closures s).

Definition boundedSession (s : Session) : Prop :=
  totalsAgree s ∧
  Forall (λ c, lastProgress c ≤ lastSize c) (closures s) ∧
  Forall patchOk (updates s).


Definition isDestroyed (f : Fetcher) : Prop := ∃ reason, f = Destroyed reason.

(** ** [getVideoInfo] (lines 19-36) *)

(** One element of [info.formats], as far as the loop destructures it:
    [{itag, clen, url}]. Each field is any JavaScript value, [undefined]
    when the key is missing. *)
Record RawFormat (V : Type) := {
  raw_itag : V;
  raw_clen : V;
  raw_url : V
}.

Arguments raw_itag {V} _.
Arguments raw_clen {V} _.
Arguments raw_url {V} _.

(** What [ytdl.getBasicInfo] resolves to: the [formats] array, which the
    function replaces, and everything else, which it passes on. *)
Record VideoInfo (D F : Type) := {
  info_rest : D;
  info_formats : list F
}.

Arguments info_rest {D F} _.
Arguments info_formats {D F} _.

Section GetVideoInfo.

(** [V] is the type of JavaScript values. The loop applies three operations
    of the language to them: the conversion to a boolean ([truthy]), the
    conversion of a value used as a property key to the name of the property
    ([toPropertyKey]), and the object spread, which copies the own enumerable
    properties of a value ([ownEnumerable]). A JavaScript object built by a
    literal is a finite map from property names to values. *)
Context {D V : Type}.
Variable truthy : V → bool.
Variable toPropertyKey : V → string.
Variable ownEnumerable : V → gmap string V.

(** [config/id3tags] is not part of src. [id3tags key] is the value of the
    property lookup [id3tags[key]]: [undefined] when there is no such
    property, the entry otherwise, inherited properties included. *)
Variable id3tags : string → V.

(** [ytdl.getBasicInfo(url)]; [None] when the promise is rejected. *)
Variable getBasicInfo : string → option (VideoInfo D (RawFormat V)).

(** The loop of lines 24-32, with [resolvedFormats] as accumulator.
    [itag && id3tags[itag]] is [itag] itself when [itag] is falsy, and the
    result of the lookup otherwise. *)
Fixpoint resolveFormats (formats : list (RawFormat V))
    (resolvedFormats : list (gmap string V)) : list (gmap string V) :=
  match formats with
  | [] => resolvedFormats
  | f :: rest =>
      let itag := raw_itag f in
      let format := if truthy itag then id3tags (toPropertyKey itag) else itag in
      if truthy format then
        resolveFormats rest
          (resolvedFormats ++
             [<["itag" := itag]>
                (<["url" := raw_url f]>
                   (<["clen" := raw_clen f]> (ownEnumerable format)))])
      else resolveFormats rest resolvedFormats
  end.

Definition watchUrl (videoid : string) : string :=
  "https://www.youtube.com/watch?v=" +:+ videoid.

Definition getVideoInfo (videoid : string) : option (VideoInfo D (gmap string V)) :=
  match getBasicInfo (watchUrl videoid) with
  | Some info =>
      Some {| info_rest := info_rest info;
              info_formats := resolveFormats (info_formats info) [] |}
  | None => None
  end.

(** A reported format is kept when its itag is truthy and names a truthy
    property of the table. *)
Definition keptFormat (f : RawFormat V) : bool :=
  truthy (raw_itag f) && truthy (id3tags (toPropertyKey (raw_itag f))).

End GetVideoInfo.

Module DemoInfo.

(** A fragment of the JavaScript values; an object is referred to by a name. *)
Inductive JsValue :=
| JUndefined
| JNumber (n : Z)
| JString (s : string)
| JObject (name : string)
| JFunction.

Definition truthy (v : JsValue) : bool :=
  match v with
  | JUndefined => false
  | JNumber n => negb (n =? 0)
  | JString s => negb (bool_decide (s = ""))
  | JObject _ | JFunction => true
  end.

(** The property key a value stands for: a string is its own key, an integer
    is written in decimal, and the one function used below, [Object], is
    written as its source text. *)
Definition toPropertyKey (v : JsValue) : string :=
  match v with
  | JString s => s
  | JNumber n => pretty n
  | JUndefined => "undefined"
  | JObject _ => "[object Object]"
  | JFunction => "function Object() { [native code] }"
  end.

(** The own enumerable properties of the three objects used below; a
    function has none. *)
Definition ownEnumerable (v : JsValue) : gmap string JsValue :=
  match v with
  | JObject name =>
      if decide (name = "mp4") then
        {[ "container" := JString "mp4"; "itag" := JString "stale" ]}
      else if decide (name = "m4a") then
        {[ "container" := JString "m4a"; "bitrate" := JNumber 128 ]}
      else {[ "container" := JString "zero" ]}
  | _ => ∅
  end.

(** A table with entries for the itags 18, 140 and 0; as a plain object it
    also inherits [constructor]. *)
Definition table (key : string) : JsValue :=
  if decide (key = "18") then JObject "mp4"
  else if decide (key = "140") then JObject "m4a"
  else if decide (key = "0") then JObject "zero"
  else if decide (key = "constructor") then JFunction
  else JUndefined.

Definition raw (itag : JsValue) (url : string) : RawFormat JsValue :=
  {| raw_itag := itag; raw_clen := JUndefined; raw_url := JString url |}.

Definition reported : list (RawFormat JsValue) :=
  [raw (JNumber 140) "u1"; raw JUndefined "u2"; raw (JNumber 0) "u3";
   raw (JString "0") "u4"; raw (JString "999") "u5"; raw (JString "18") "u6";
   raw (JString "constructor") "u7"].

(** The format that is returned for the reported itag ['0'], a string. *)
Definition zeroFormat : gmap string JsValue :=
  <["itag" := JString "0"]>
    (<["url" := JString "u4"]>
       (<["clen" := JUndefined]> ({[ "container" := JString "zero" ]})) ).

Definition basic (url : string) : option (VideoInfo string (RawFormat JsValue)) :=
  if decide (url = "https://www.youtube.com/watch?v=abc")
  then Some {| info_rest := "details"; info_formats := reported |}
  else None.

End DemoInfo.

(** ** Vocabulary of the further properties *)

Section TempPaths.

Variable createUID : nat → string.
Variable path_join : string → string → string.

(** The temporary paths of the streams of [srcs] when the first of them is
    named by the [k]-th result of [createUID]. *)
Fixpoint tempPaths (tmp : string) (k : nat) (srcs : list Source) : list string :=
  match srcs with
  | [] => []
  | src :: rest =>
      path_join tmp (createUID k +:+ "." +:+ container src) :: tempPaths tmp (S k) rest
  end.

End TempPaths.

Definition freshClosure (d : string) : Closure :=
  {| destinationDirectory := d; lastProgressTimestamp := 0;
     lastProgress := 0; lastSize := 0 |}.

(** The three per-stream lists of a session are aligned with its sources. *)
Definition wellShaped (s : Session) : Prop :=
  destinationDirectory <$> closures s = destiantions s ∧
  length (destiantions s) = length (sources (request s)) ∧
  length (sourceStreams s) = length (sources (request s)).

(** The session whose state an event can change, if any. *)
Definition target (w : World) (ev : Event) : option nat :=
  match ev with
  | StartDownload _ _ _ => None
  | Stream ref _ _ _ _ => Some ref
  | EncoderSettled ref _ _ => Some ref
  | CancelDownload id =>
      match lookupDownload w id with
      | Handle ref => Some ref
      | _ => None
      end
  end.

Definition isStart (ev : Event) : bool :=
  match ev with
  | StartDownload _ _ _ => true
  | _ => false
  end.

(** Every registry entry refers to a session that carries the id of the
    entry, and the [add-download] messages are those of the sessions, in the
    order in which they were started. *)
Definition registryOk (w : World) : Prop :=
  (∀ id ref, lookupDownload w id = Handle ref →
     ∃ s, heap w !! ref = Some s ∧ downloadId s = id) ∧
  add_id <$> sent w = downloadId <$> heap w.

Section PostProcess.

Variable path_join : string → string → string.

(** The destination file of a session, from its current download directory. *)
Definition outputPath (s : Session) : string :=
  path_join (downloadDirectory s)
    (Title.filteredTitle (title (video (request s))) +:+ "." +:+ format (request s)).

Definition expectedOp (s : Session) : EncoderOp :=
  if decide (length (sources (request s)) = 1%nat) then OpConvert else OpMerge.

(** What holds of the post-processing of a session at any time: no encoder
    call before all streams have ended, at most one call, of the expected
    shape; every pending promise belongs to a call; a call was announced by a
    [convert] patch; a [finish] patch comes after a [convert] patch and names
    the output of a call. *)
Definition postProcessOk (s : Session) : Prop :=
  ((done s < length (sources (request s)))%nat → encoderCalls s = []) ∧
  (length (encoderCalls s) ≤ 1)%nat ∧
  (∀ call, call ∈ encoderCalls s →
     op call = expectedOp s ∧
     input call ∈ (destinationDirectory <$> closures s) ∧
     output call = outputPath s) ∧
  (∀ f, f ∈ pending s → ∃ call, call ∈ encoderCalls s ∧ output call = f) ∧
  (encoderCalls s ≠ [] → ∃ q, q ∈ updates s ∧ p_status q = Some Convert) ∧
  (∀ us1 p us2, updates s = us1 ++ p :: us2 → p_status p = Some Finish →
     (∃ q, q ∈ us1 ∧ p_status q = Some Convert) ∧
     ∃ call, call ∈ encoderCalls s ∧ p_destinationFile p = Some (output call)).

End PostProcess.

Module DemoRuns.

(** One stream ends; the encoder has been called and has not settled. *)
Definition converting : list Event :=
  [StartDownload Demo.oneStream Demo.cfg 5; Stream 0 0 EvEnd 6 6].

(** ... and then the conversion succeeds. *)
Definition finishing : list Event :=
  converting ++ [EncoderSettled 0 true 8].


(** Two downloads are started one after the other. *)
Definition pair : list Event :=
  [StartDownload Demo.oneStream Demo.cfg 5; StartDownload Demo.twoStreams Demo.cfg 6].

End DemoRuns.

(** * Properties *)

(** ** Title sanitisation *)

Lemma replace_class_blank s :
  Title.replace_class Title.forbidden " " s = Title.spec_blank s.
Proof.
  induction s as [|a s IH]; [reflexivity|].
  cbn [Title.replace_class Title.spec_blank]. unfold Title.in_class.
  rewrite IH. destruct (bool_decide (a ∈ Title.forbidden)); reflexivity.
Qed.

Lemma replace_runs_collapse s :
  Title.replace_runs " " " " false s = Title.spec_collapse s ∧
  String " " (Title.replace_runs " " " " true s) = Title.spec_collapse (String " " s).
Proof.
  induction s as [|a s [IH1 IH2]]; [split; reflexivity|].
  cbn [Title.replace_runs Title.spec_collapse Title.starts_with_space] in *.
  change (Stdlib.Strings.Ascii.eqb " " " ") with true in *. cbn [andb] in *.
  destruct (Stdlib.Strings.Ascii.eqb a " ") eqn:Ha; cbn [andb].
  - apply Stdlib.Strings.Ascii.eqb_eq in Ha. subst a. split; exact IH2.
  - rewrite IH1. split; reflexivity.
Qed.

Lemma spec_blank_clean s a :
  a ∈ Title.chars (Title.spec_blank s) → a ∉ Title.forbidden.
Proof.
  induction s as [|b s IH]; cbn [Title.spec_blank Title.chars].
  - intros H. inversion H.
  - intros [->|H]%elem_of_cons; [|auto].
    case_bool_decide as Hb; [|exact Hb].
    unfold Title.forbidden, Title.dquote. intros H. vm_compute in H.
    repeat (apply elem_of_cons in H as [H|H]; [discriminate H|]).
    inversion H.
Qed.

Lemma spec_collapse_chars s a :
  a ∈ Title.chars (Title.spec_collapse s) → a ∈ Title.chars s.
Proof.
  induction s as [|b s IH]; cbn [Title.spec_collapse Title.chars]; [auto|].
  destruct (_ && _); cbn [Title.chars].
  - intros H. right. auto.
  - intros [->|H]%elem_of_cons; [left|right; auto].
Qed.

Lemma spec_collapse_head s :
  Title.starts_with_space (Title.spec_collapse s) = Title.starts_with_space s.
Proof.
  induction s as [|b s IH]; [reflexivity|].
  cbn [Title.spec_collapse].
  destruct (Stdlib.Strings.Ascii.eqb b " ") eqn:Hb; cbn [andb].
  - destruct (Title.starts_with_space s) eqn:Hs.
    + rewrite IH. cbn. rewrite Hb. reflexivity.
    + cbn. rewrite Hb. reflexivity.
  - cbn. rewrite Hb. reflexivity.
Qed.

Lemma spec_collapse_no_double s : Title.no_double_space (Title.spec_collapse s).
Proof.
  induction s as [|b s IH]; [exact I|].
  cbn [Title.spec_collapse].
  destruct (Stdlib.Strings.Ascii.eqb b " ") eqn:Hb; cbn [andb].
  - destruct (Title.starts_with_space s) eqn:Hs; [exact IH|].
    split; [|exact IH]. intros _. rewrite spec_collapse_head. exact Hs.
  - split; [|exact IH]. intros ->. discriminate Hb.
Qed.

(** C9. For every title, the sanitised title computed by the two
    replacements of line 125 is the title with each of the ten characters
    slash, backslash, question mark, percent, star, colon, bar, double quote,
    less-than and greater-than replaced by one space and every run of
    consecutive spaces then collapsed to one space; the result contains none
    of the ten characters and no two neighbouring spaces; and the title
    [My//Video:  Part*1] becomes [My Video Part 1]. *)
Theorem C9_title_sanitisation :
  (∀ title : string,
      Title.filteredTitle title = Title.spec_sanitize title ∧
      (∀ a, a ∈ Title.chars (Title.filteredTitle title) → a ∉ Title.forbidden) ∧
      Title.no_double_space (Title.filteredTitle title)) ∧
  Title.filteredTitle "My//Video:  Part*1" = "My Video Part 1".
Proof.
  split; [|reflexivity].
  intros t.
  assert (Heq : Title.filteredTitle t = Title.spec_sanitize t).
  { unfold Title.filteredTitle, Title.spec_sanitize.
    rewrite replace_class_blank. apply replace_runs_collapse. }
  rewrite Heq. unfold Title.spec_sanitize. split; [reflexivity|]. split.
  - intros a Ha. eapply spec_blank_clean, spec_collapse_chars, Ha.
  - apply spec_collapse_no_double.
Qed.

(** ** Generic facts about the handlers *)

Lemma sumOf_insert (f : Closure → Z) (cs : list Closure) i c c' :
  cs !! i = Some c → sumOf f (<[i := c']> cs) = sumOf f cs - f c + f c'.
Proof.
  revert i. induction cs as [|x cs IH]; intros [|i] H; simplify_eq/=.
  - lia.
  - rewrite (IH _ H). lia.
Qed.

Lemma sumOf_zero (f : Closure → Z) (cs : list Closure) :
  Forall (λ c, f c = 0) cs → sumOf f cs = 0.
Proof. induction 1 as [|c cs Hc _ IH]; simpl; lia. Qed.

Lemma unlinkAll_present (paths : list string) (fs : gset string) :
  NoDup paths → (∀ d, d ∈ paths → d ∈ fs) →
  unlinkAll paths fs = (fs ∖ list_to_set paths, false).
Proof.
  revert fs. induction paths as [|p paths IH]; intros fs Hnd Hin; simpl.
  - f_equal. set_solver.
  - apply NoDup_cons in Hnd as [Hp Hnd].
    unfold unlinkSync. rewrite decide_True by (apply Hin; left).
    rewrite IH; [f_equal; set_solver|done|].
    intros d Hd. apply elem_of_difference. split; [apply Hin; by right|].
    intros ->%elem_of_singleton. done.
Qed.

Lemma unlinkAll_subseteq (paths : list string) (fs : gset string) :
  (unlinkAll paths fs).1 ⊆ fs.
Proof.
  revert fs. induction paths as [|p paths IH]; intros fs; simpl; [done|].
  unfold unlinkSync. case_decide; [|done].
  etrans; [apply IH|]. set_solver.
Qed.

Lemma recordedStatus_update (p : Props) (s : Session) :
  recordedStatus (update p s) = applyStatus (recordedStatus s) p.
Proof. unfold recordedStatus. simpl. by rewrite foldl_app. Qed.

Lemma lookupDownload_Handle (w : World) (id : string) (ref : nat) :
  lookupDownload w id = Handle ref ↔
  (id ≠ "__proto__" ∧ activeDownloads w !! id = Some ref) ∨
  (id = "__proto__" ∧ prototype w = Some ref).
Proof.
  unfold lookupDownload. case_decide as Hid.
  - destruct (prototype w) as [r|]; split;
      try (intros [= ->]); try (intros [[? ?]|[_ ?]]); simplify_eq; auto.
  - destruct (activeDownloads w !! id) as [r|].
    + split; [intros [= ->]; by left|]. intros [[_ [= ->]]|[? _]]; done.
    + repeat case_decide; destruct (prototype w) as [r|]; split;
        try (intros [= ->]); try (intros [[? ?]|[? ?]]); simplify_eq; auto.
Qed.

Section Properties.

Variable createUID : nat → string.
Variable mkdirIfNotPresent : string → string.
Variable path_join : string → string → string.
Variable path_resolve : string → string → string.

Local Abbreviation on_end := (on_end mkdirIfNotPresent path_join path_resolve).
Local Abbreviation deliver := (deliver mkdirIfNotPresent path_join path_resolve).
Local Abbreviation spawn := (spawn createUID path_join).
Local Abbreviation spawnIn := (spawnIn createUID path_join).
Local Abbreviation startDownload := (startDownload createUID path_join).
Local Abbreviation step := (step createUID mkdirIfNotPresent path_join path_resolve).
Local Abbreviation run := (run createUID mkdirIfNotPresent path_join path_resolve).

(** *** What the [end] handler leaves untouched, and what it publishes *)

Lemma on_end_eq (i : nat) (s : Session) (c : Closure) :
  closures s !! i = Some c →
  ∃ dir,
    on_end i s =
      if decide (S (done s) = length (sources (request s))) then
        callEncoder
          {| op := if decide (length (sources (request s)) = 1%nat)
                   then OpConvert else OpMerge;
             input := destinationDirectory c;
             output := path_join dir
                         (Title.filteredTitle (title (video (request s))) +:+ "." +:+
                          format (request s)) |}
          (setDownloadDirectory dir
             (update (convertProps (totalSize s) (totalSize s)) (setDone (S (done s)) s)))
      else setDone (S (done s)) s.
Proof.
  intros Hc. unfold on_end. rewrite Hc.
  destruct s as [id [pl fmt vid srcs] [tmp dd ccd] ddir tp ts dn ds ss cs us ecs ps].
  cbn. case_decide; [|by exists ""].
  destruct ccd, pl as [t|]; cbn.
  - by exists (mkdirIfNotPresent (path_resolve (mkdirIfNotPresent
       (path_resolve ddir (author_name vid))) t)).
  - by exists (mkdirIfNotPresent (path_resolve ddir (author_name vid))).
  - by exists (mkdirIfNotPresent (path_resolve ddir t)).
  - by exists ddir.
Qed.

(** *** Invariants of every session of the process *)

Section Invariant.

Variable P : Session → Prop.
Variable Q : Event → Prop.

Hypothesis P_new : ∀ id req cfg w, P (newSession id req cfg (spawnIn w req cfg)).
Hypothesis P_deliver : ∀ ref i sev now now' s fs,
  Q (Stream ref i sev now now') → P s → P (deliver i sev now now' (s, fs)).1.
Hypothesis P_settled : ∀ ok now s fs, P s → P (on_settled ok now (s, fs)).1.
Hypothesis P_cancel : ∀ s, P s → P (cancel s).

Lemma step_invariant (w : World) (ev : Event) :
  Q ev → Forall P (heap w) → Forall P (heap (step w ev)).
Proof.
  intros Hq Hw. destruct ev as [req cfg now|ref i sev now now'|ref ok now|id]; simpl.
  - apply Forall_app. split; [done|]. repeat constructor. apply P_new.
  - destruct (heap w !! ref) as [s|] eqn:Hs; [|done]. simpl.
    apply Forall_insert; [done|].
    apply (P_deliver ref); [done|]. eapply Forall_lookup_1; eauto.
  - destruct (heap w !! ref) as [s|] eqn:Hs; [|done]. simpl.
    apply Forall_insert; [done|].
    apply P_settled. eapply Forall_lookup_1; eauto.
  - unfold cancelDownload. simpl.
    destruct (lookupDownload w id) as [ref| |]; [|done..].
    destruct (heap w !! ref) as [s|] eqn:Hs; [|done]. simpl.
    apply Forall_insert; [done|].
    apply P_cancel. eapply Forall_lookup_1; eauto.
Qed.

Lemma run_invariant (evs : list Event) (w : World) :
  Forall Q evs → Forall P (heap w) → Forall P (heap (run w evs)).
Proof.
  revert w. induction evs as [|ev evs IH]; intros w Hq Hw; [done|].
  apply Forall_cons in Hq as [Hev Hq]. simpl.
  apply IH; [done|]. by apply step_invariant.
Qed.

End Invariant.

(** *** The totals are sums of the last samples *)

Lemma sumOf_le (f g : Closure → Z) (cs : list Closure) :
  Forall (λ c, f c ≤ g c) cs → sumOf f cs ≤ sumOf g cs.
Proof. induction 1 as [|c cs Hc _ IH]; simpl; lia. Qed.

Lemma spawn_closures_Forall (R : Closure → Prop) tmp srcs acc :
  (∀ d, R {| destinationDirectory := d; lastProgressTimestamp := 0;
             lastProgress := 0; lastSize := 0 |}) →
  Forall R (sp_closures acc) → Forall R (sp_closures (spawn tmp srcs acc)).
Proof.
  intros HR. revert acc. induction srcs as [|src srcs IH]; intros acc Hacc; [done|].
  simpl. apply IH. simpl. apply Forall_app. split; [done|]. repeat constructor. apply HR.
Qed.

Lemma newSession_closures_zero id req cfg w :
  Forall (λ c, lastProgress c = 0 ∧ lastSize c = 0)
    (closures (newSession id req cfg (spawnIn w req cfg))).
Proof. apply spawn_closures_Forall; [done|]. constructor. Qed.

Lemma totalsAgree_new id req cfg w :
  totalsAgree (newSession id req cfg (spawnIn w req cfg)).
Proof.
  pose proof (newSession_closures_zero id req cfg w) as Hz.
  split; simpl; symmetry; apply sumOf_zero;
    (eapply Forall_impl; [exact Hz|]); by intros c [? ?].
Qed.

Lemma totalsAgree_progress i progress size now now' s :
  totalsAgree s → totalsAgree (on_progress i progress size now now' s).
Proof.
  intros [Hp Hs]. unfold on_progress.
  destruct (closures s !! i) as [c|] eqn:Hc; [|done].
  split; simpl; rewrite (sumOf_insert _ _ _ _ _ Hc); simpl; lia.
Qed.

Lemma on_end_frame i s :
  closures (on_end i s) = closures s ∧
  totalProgress (on_end i s) = totalProgress s ∧
  totalSize (on_end i s) = totalSize s ∧
  destiantions (on_end i s) = destiantions s ∧
  sourceStreams (on_end i s) = sourceStreams s ∧
  (updates (on_end i s) = updates s ∨
   updates (on_end i s) = updates s ++ [convertProps (totalSize s) (totalSize s)]).
Proof.
  destruct (closures s !! i) as [c|] eqn:Hc.
  - destruct (on_end_eq i s c Hc) as [dir ->].
    case_decide; simpl; auto 10.
  - unfold on_end. rewrite Hc. auto 10.
Qed.

Lemma on_error_frame i e s fs :
  closures (on_error i e (s, fs)).1 = closures s ∧
  totalProgress (on_error i e (s, fs)).1 = totalProgress s ∧
  totalSize (on_error i e (s, fs)).1 = totalSize s ∧
  destiantions (on_error i e (s, fs)).1 = destiantions s ∧
  (updates (on_error i e (s, fs)).1 = updates s ∨
   updates (on_error i e (s, fs)).1 = updates s ++ [statusProps Errored]).
Proof.
  unfold on_error. destruct (closures s !! i); [|simpl; auto 10].
  destruct (is_cancelled e); [simpl; auto 10|].
  destruct (unlinkAll _ fs) as [fs' []]; simpl; auto 10.
Qed.

Lemma on_settled_frame ok now s fs :
  closures (on_settled ok now (s, fs)).1 = closures s ∧
  totalProgress (on_settled ok now (s, fs)).1 = totalProgress s ∧
  totalSize (on_settled ok now (s, fs)).1 = totalSize s ∧
  destiantions (on_settled ok now (s, fs)).1 = destiantions s ∧
  sourceStreams (on_settled ok now (s, fs)).1 = sourceStreams s ∧
  (updates (on_settled ok now (s, fs)).1 = updates s ∨
   (∃ st, updates (on_settled ok now (s, fs)).1 = updates s ++ [statusProps st]) ∨
   (∃ f, updates (on_settled ok now (s, fs)).1 = updates s ++ [finishProps now f])).
Proof.
  unfold on_settled. destruct (pending s) as [|f rest]; [simpl; auto 10|].
  destruct ok; simpl; eauto 10.
Qed.

Lemma totalsAgree_deliver i sev now now' s fs :
  totalsAgree s → totalsAgree (deliver i sev now now' (s, fs)).1.
Proof.
  intros H. destruct sev as [chunk progress size| |e].
  - by apply totalsAgree_progress.
  - destruct (on_end_frame i s) as (Hc & Hp & Hs & _).
    unfold totalsAgree. unfold deliver; cbn [fst snd]. by rewrite Hc, Hp, Hs.
  - destruct (on_error_frame i e s fs) as (Hc & Hp & Hs & _).
    unfold totalsAgree. unfold deliver; cbn [fst snd]. by rewrite Hc, Hp, Hs.
Qed.

Lemma totalsAgree_settled ok now s fs :
  totalsAgree s → totalsAgree (on_settled ok now (s, fs)).1.
Proof.
  intros H. destruct (on_settled_frame ok now s fs) as (Hc & Hp & Hs & _).
  unfold totalsAgree. by rewrite Hc, Hp, Hs.
Qed.

Lemma totalsAgree_reachable (evs : list Event) :
  Forall totalsAgree (heap (run emptyWorld evs)).
Proof.
  apply (run_invariant totalsAgree (λ _, True)).
  - apply totalsAgree_new.
  - intros. by apply totalsAgree_deliver.
  - intros. by apply totalsAgree_settled.
  - done.
  - by apply Forall_true.
  - constructor.
Qed.

(** C8. Each [end] event of a stream increments the done counter; the
    patch with status [convert] is published exactly when the counter then
    equals the number of streams, and its [progress] and [size] fields are
    both the current total size (it has no other field). In every reachable
    session of two streams whose last reported sizes are 1000 and 2000, the
    [end] event that completes the session publishes a patch with status
    [convert], size 3000 and progress 3000. *)
Theorem C8_convert_when_all_streams_ended :
  (∀ (s : Session) (i : nat) (c : Closure),
      closures s !! i = Some c →
      done (on_end i s) = S (done s) ∧
      (S (done s) = length (sources (request s)) →
       ∃ p, updates (on_end i s) = updates s ++ [p] ∧
            p_status p = Some Convert ∧
            p_progress p = Some (totalSize s) ∧
            p_size p = Some (totalSize s) ∧
            p_speed p = None ∧ p_endTimestamp p = None ∧
            p_destinationFile p = None) ∧
      (S (done s) ≠ length (sources (request s)) →
       updates (on_end i s) = updates s)) ∧
  (∀ (evs : list Event) (ref : nat) (s : Session) (c0 c1 : Closure) (i : nat),
      heap (run emptyWorld evs) !! ref = Some s →
      closures s = [c0; c1] → lastSize c0 = 1000 → lastSize c1 = 2000 →
      (i < 2)%nat → S (done s) = length (sources (request s)) →
      ∃ p, last (updates (on_end i s)) = Some p ∧
           p_status p = Some Convert ∧
           p_progress p = Some 3000 ∧ p_size p = Some 3000).
Proof.
  assert (Hgen : ∀ (s : Session) (i : nat) (c : Closure),
      closures s !! i = Some c →
      done (on_end i s) = S (done s) ∧
      (S (done s) = length (sources (request s)) →
       ∃ p, updates (on_end i s) = updates s ++ [p] ∧
            p_status p = Some Convert ∧
            p_progress p = Some (totalSize s) ∧
            p_size p = Some (totalSize s) ∧
            p_speed p = None ∧ p_endTimestamp p = None ∧
            p_destinationFile p = None) ∧
      (S (done s) ≠ length (sources (request s)) →
       updates (on_end i s) = updates s)).
  { intros s i c Hc. destruct (on_end_eq i s c Hc) as [dir ->].
    case_decide; simpl; (split; [done|]); split; intros; try congruence.
    eexists. split; [reflexivity|]. done. }
  split; [exact Hgen|].
  intros evs ref s c0 c1 i Hs Hcs H0 H1 Hi Hdone.
  assert (Hc : ∃ c, closures s !! i = Some c).
  { rewrite Hcs. destruct i as [|[|i]]; simpl; eauto. lia. }
  destruct Hc as [c Hc].
  destruct (Hgen s i c Hc) as (_ & Hup & _).
  destruct (Hup Hdone) as (p & Hp & Hst & Hpr & Hsz & _).
  pose proof (totalsAgree_reachable evs) as Hall.
  destruct (Forall_lookup_1 _ _ _ _ Hall Hs) as [_ Hsize].
  assert (Htot : totalSize s = 3000).
  { rewrite Hsize, Hcs. simpl. rewrite H0, H1. reflexivity. }
  exists p. rewrite Hp, last_snoc. rewrite Htot in Hpr, Hsz. done.
Qed.

(** *** Progress never exceeds size *)

Lemma boundedSession_new id req cfg w :
  boundedSession (newSession id req cfg (spawnIn w req cfg)).
Proof.
  split; [apply totalsAgree_new|]. split; [|constructor].
  eapply Forall_impl; [apply newSession_closures_zero|].
  intros c [-> ->]. done.
Qed.

Lemma patchOk_status st : patchOk (statusProps st).
Proof. intros pr sz H. discriminate H. Qed.

Lemma patchOk_finish now f : patchOk (finishProps now f).
Proof. intros pr sz H. discriminate H. Qed.

Lemma patchOk_convert t : patchOk (convertProps t t).
Proof. intros pr sz H1 H2. simplify_eq/=. lia. Qed.

Lemma boundedSession_progress i progress size now now' s :
  progress ≤ size → boundedSession s →
  boundedSession (on_progress i progress size now now' s).
Proof.
  intros Hle (Ht & Hcs & Hus).
  pose proof (totalsAgree_progress i progress size now now' s Ht) as Ht'.
  split; [exact Ht'|]. revert Ht'. unfold on_progress.
  destruct (closures s !! i) as [c|] eqn:Hc; [|done].
  intros [Hp Hs]. simpl in *.
  assert (Hcs' : Forall (λ c0, lastProgress c0 ≤ lastSize c0)
            (<[i := {| destinationDirectory := destinationDirectory c;
                       lastProgressTimestamp := now';
                       lastProgress := progress; lastSize := size |}]> (closures s))).
  { apply Forall_insert; done. }
  split; [exact Hcs'|].
  apply Forall_app. split; [done|]. repeat constructor.
  intros pr sz H1 H2. simplify_eq/=. rewrite Hp, Hs. by apply sumOf_le.
Qed.

Lemma boundedSession_frame s s' :
  closures s' = closures s → totalProgress s' = totalProgress s →
  totalSize s' = totalSize s →
  (updates s' = updates s ∨ ∃ p, patchOk p ∧ updates s' = updates s ++ [p]) →
  boundedSession s → boundedSession s'.
Proof.
  intros Hc Hp Hs Hu (Ht & Hcs & Hus). unfold boundedSession, totalsAgree.
  rewrite Hc, Hp, Hs. split; [done|]. split; [done|].
  destruct Hu as [->|(p & Hok & ->)]; [done|].
  apply Forall_app. split; [done|]. by repeat constructor.
Qed.

Lemma boundedSession_reachable (evs : list Event) :
  Forall sampleOk evs → Forall boundedSession (heap (run emptyWorld evs)).
Proof.
  intros Hev. apply (run_invariant boundedSession sampleOk); [..|done|constructor].
  - apply boundedSession_new.
  - intros ref i sev now now' s fs Hq Hb.
    destruct sev as [chunk progress size| |e]; unfold deliver; cbn [fst snd].
    + by apply boundedSession_progress.
    + destruct (on_end_frame i s) as (Hc & Hp & Hs & _ & _ & Hu).
      apply (boundedSession_frame s); [done..| |done].
      destruct Hu as [Hu|Hu]; [by left|right].
      eexists. split; [apply patchOk_convert|exact Hu].
    + destruct (on_error_frame i e s fs) as (Hc & Hp & Hs & _ & Hu).
      apply (boundedSession_frame s); [done..| |done].
      destruct Hu as [Hu|Hu]; [by left|right].
      eexists. split; [apply patchOk_status|exact Hu].
  - intros ok now s fs Hb.
    destruct (on_settled_frame ok now s fs) as (Hc & Hp & Hs & _ & _ & Hu).
    apply (boundedSession_frame s); [done..| |done].
    destruct Hu as [Hu|[[st Hu]|[f Hu]]]; [by left|right..].
    + eexists. split; [apply patchOk_status|exact Hu].
    + eexists. split; [apply patchOk_finish|exact Hu].
  - intros s Hb. apply (boundedSession_frame s); [done..| |done].
    right. eexists. split; [apply patchOk_status|reflexivity].
Qed.

Lemma sent_reachable (evs : list Event) (w : World) :
  Forall (λ a, add_progress a ≤ add_size a) (sent w) →
  Forall (λ a, add_progress a ≤ add_size a) (sent (run w evs)).
Proof.
  revert w. induction evs as [|ev evs IH]; intros w Hw; [done|].
  simpl. apply IH.
  destruct ev as [req cfg now|ref i sev now now'|ref ok now|id]; simpl.
  - apply Forall_app. split; [done|]. repeat constructor. simpl. lia.
  - by destruct (heap w !! ref).
  - by destruct (heap w !! ref).
  - unfold cancelDownload. simpl.
    destruct (lookupDownload w id) as [ref| |]; [|done..].
    by destruct (heap w !! ref).
Qed.

(** C4. In every run of the process in which each progress sample reports
    no more bytes than its size, every patch handed to [update] that carries
    both [progress] and [size] has [progress ≤ size], for every session, and
    so has every [add-download] payload; the sizes of successive samples of a
    stream are unconstrained, so they may decrease. *)
Theorem C4_progress_never_exceeds_size (evs : list Event) :
  Forall sampleOk evs →
  (∀ a, a ∈ sent (run emptyWorld evs) → add_progress a ≤ add_size a) ∧
  (∀ s p pr sz,
      s ∈ heap (run emptyWorld evs) → p ∈ updates s →
      p_progress p = Some pr → p_size p = Some sz → pr ≤ sz).
Proof.
  intros Hev. split.
  - intros a Ha.
    pose proof (sent_reachable evs emptyWorld (Forall_nil_2 _)) as Hall.
    by apply (proj1 (Forall_forall _ _) Hall).
  - intros s p pr sz Hs Hp H1 H2.
    pose proof (boundedSession_reachable evs Hev) as Hall.
    destruct (proj1 (Forall_forall _ _) Hall s Hs) as (_ & _ & Hus).
    by apply (proj1 (Forall_forall _ _) Hus p Hp).
Qed.

(** *** The patch of a progress sample *)

Lemma on_progress_patch (s : Session) (i : nat) (c : Closure)
    (progress size now now' : Z) :
  closures s !! i = Some c →
  ∃ p,
    updates (on_progress i progress size now now' s) = updates s ++ [p] ∧
    p_progress p = Some (totalProgress s + (progress - lastProgress c)) ∧
    p_speed p = Some (speedOf (lastProgress c) progress now (lastProgressTimestamp c)) ∧
    p_size p = Some (totalSize s - lastSize c + size) ∧
    p_status p = None.
Proof.
  intros Hc. unfold on_progress. rewrite Hc. simpl. eexists. split; [reflexivity|]. done.
Qed.

(** *** Failure of one stream *)

Lemma Forall_destroy reason (fs : list Fetcher) :
  Forall isDestroyed (destroy reason <$> fs).
Proof.
  apply Forall_fmap, Forall_true. intros [|r]; simpl; eexists; reflexivity.
Qed.

(** C7. In a session whose temporary files are all on disk (and pairwise
    distinct), an [error] event of any stream whose cause is not the string
    [cancelled] destroys every stream of the session, unlinks every temporary
    file of the session (none remains, other files are untouched) and
    publishes [errored]; an [error] event whose cause is [cancelled] changes
    nothing. This holds for any number of streams, so for more than one. *)
Theorem C7_stream_error_aborts_session (s : Session) (fs : gset string)
    (i : nat) (c : Closure) (e : Cause) :
  closures s !! i = Some c →
  NoDup (destiantions s) →
  (∀ d, d ∈ destiantions s → d ∈ fs) →
  if is_cancelled e then on_error i e (s, fs) = (s, fs)
  else
    Forall isDestroyed (sourceStreams (on_error i e (s, fs)).1) ∧
    length (sourceStreams (on_error i e (s, fs)).1) = length (sourceStreams s) ∧
    (∀ d, d ∈ destiantions s → d ∉ (on_error i e (s, fs)).2) ∧
    (on_error i e (s, fs)).2 = fs ∖ list_to_set (destiantions s) ∧
    updates (on_error i e (s, fs)).1 = updates s ++ [statusProps Errored] ∧
    recordedStatus (on_error i e (s, fs)).1 = Errored.
Proof.
  intros Hc Hnd Hin. unfold on_error. rewrite Hc.
  destruct (is_cancelled e); [reflexivity|].
  cbn [destiantions setSourceStreams].
  rewrite (unlinkAll_present _ _ Hnd Hin). cbn [fst snd].
  split; [apply Forall_destroy|]. split; [simpl; apply length_fmap|].
  split; [|split; [reflexivity|split; [reflexivity|]]].
  - intros d Hd. set_solver.
  - rewrite recordedStatus_update. reflexivity.
Qed.

Lemma spawn_files tmp srcs acc :
  (∀ d, d ∈ sp_destiantions acc → d ∈ sp_files acc) →
  ∀ d, d ∈ sp_destiantions (spawn tmp srcs acc) → d ∈ sp_files (spawn tmp srcs acc).
Proof.
  revert acc. induction srcs as [|src srcs IH]; intros acc Hacc; [done|].
  simpl. apply IH. simpl. intros d [Hd|Hd]%elem_of_app.
  - apply elem_of_union_r. by apply Hacc.
  - apply list_elem_of_singleton in Hd as ->. set_solver.
Qed.

(** Right after [startDownload] every temporary file of the new session is
    on disk. *)
Lemma startDownload_temporary_files req cfg now w s :
  heap (startDownload req cfg now w).1 !! length (heap w) = Some s →
  ∀ d, d ∈ destiantions s → d ∈ files (startDownload req cfg now w).1.
Proof.
  simpl. rewrite lookup_app_r, Nat.sub_diag by lia. intros [= <-]. simpl.
  apply spawn_files. simpl. intros d Hd. inversion Hd.
Qed.

(** [progress] and [end] events, and cancel requests, leave the disk and the
    list of temporary files of the session as they are: until a cleanup runs,
    the temporary files of a started session stay on disk. *)
Lemma deliver_keeps_files i sev now now' s fs :
  (∀ e, sev ≠ EvError e) →
  (deliver i sev now now' (s, fs)).2 = fs ∧
  destiantions (deliver i sev now now' (s, fs)).1 = destiantions s.
Proof.
  intros Hsev. destruct sev as [chunk progress size| |e]; unfold deliver; cbn [fst snd].
  - split; [done|]. unfold on_progress. by destruct (closures s !! i).
  - split; [done|]. apply on_end_frame.
  - by destruct (Hsev e).
Qed.

Lemma cancel_keeps_files s : destiantions (cancel s) = destiantions s.
Proof. reflexivity. Qed.

(** *** The registry *)


Lemma startDownload_lookup (w : World) (req : Request) (cfg : Settings) (now : Z) :
  lookupDownload (startDownload req cfg now w).1 (createUID (uidCalls w))
    = Handle (length (heap w)).
Proof using createUID path_join.
  clear mkdirIfNotPresent path_resolve.
  apply lookupDownload_Handle. simpl. case_decide as Hid; [by right|].
  left. split; [done|]. apply lookup_insert_eq.
Qed.


(** *** A session without streams *)





(** *** The encoder call *)

(** The [end] event that completes a session calls the encoder once, with the
    temporary file of the stream that ended last as its only input. *)
Lemma on_end_encoder_call (s : Session) (i : nat) (c : Closure) :
  closures s !! i = Some c →
  S (done s) = length (sources (request s)) →
  ∃ out,
    encoderCalls (on_end i s) =
      encoderCalls s ++
        [{| op := if decide (length (sources (request s)) = 1%nat)
                  then OpConvert else OpMerge;
            input := destinationDirectory c;
            output := out |}].
Proof.
  intros Hc Hd. destruct (on_end_eq i s c Hc) as [dir ->].
  rewrite decide_True by done. simpl. eauto.
Qed.

End Properties.

(** ** Scenarios on concrete requests *)

Lemma cancel_status (s : Session) : recordedStatus (cancel s) = Cancelled.
Proof. unfold cancel. by rewrite recordedStatus_update. Qed.

(** C1. Cancelling never touches the disk: [cancelDownload] leaves the set
    of files as it is, and the [error] events with cause [cancelled] that the
    destroyed streams raise change nothing either. For a one-stream session
    in progress, the streams are destroyed with reason [cancelled] and
    [cancelled] is published, but the temporary file is still on disk. *)
Theorem C1_cancel_leaves_temporary_files :
  (∀ uid join (w : World) (id : string),
      files (cancelDownload id w).1 = files w ∧
      files (startDownload uid join Demo.oneStream Demo.cfg 5 w).1 ≠ ∅) ∧
  (∀ i s fs, on_error i (CauseString "cancelled") (s, fs) = (s, fs)) ∧
  ∃ s,
    heap (Demo.run (Demo.started Demo.oneStream)
            [CancelDownload "a";
             Stream 0 0 (EvError (CauseString "cancelled")) 9 9]) !! 0%nat = Some s ∧
    sourceStreams s = [Destroyed cancelledReason] ∧
    updates s = [statusProps Cancelled] ∧
    recordedStatus s = Cancelled ∧
    destiantions s = ["tmp/b.m4a"] ∧
    files (Demo.run (Demo.started Demo.oneStream)
             [CancelDownload "a";
              Stream 0 0 (EvError (CauseString "cancelled")) 9 9]) = {["tmp/b.m4a"]}.
Proof.
  split; [|split].
  - intros uid join w id. split.
    + unfold cancelDownload. simpl.
      destruct (lookupDownload w id) as [ref| |]; [|done..].
      by destruct (heap w !! ref).
    + simpl. set_solver.
  - intros i s fs. unfold on_error. by destruct (closures s !! i).
  - eexists. split; [vm_compute; reflexivity|].
    repeat split; vm_compute; reflexivity.
Qed.

(** C2. With two streams, the encoder is asked to merge but receives one
    temporary file only, that of the stream whose [end] event came last; the
    temporary file of the other stream is not part of the call. With one
    stream, [convert] receives the temporary file of that stream. *)
Theorem C2_merge_receives_one_file :
  (∃ s,
     heap (Demo.run (Demo.started Demo.twoStreams)
             [Stream 0 0 EvEnd 6 6; Stream 0 1 EvEnd 7 7]) !! 0%nat = Some s ∧
     destiantions s = ["tmp/b.mp4"; "tmp/c.m4a"] ∧
     encoderCalls s =
       [{| op := OpMerge; input := "tmp/c.m4a"; output := "out/My Video Part 1.mkv" |}]) ∧
  (∃ s,
     heap (Demo.run (Demo.started Demo.twoStreams)
             [Stream 0 1 EvEnd 6 6; Stream 0 0 EvEnd 7 7]) !! 0%nat = Some s ∧
     destiantions s = ["tmp/b.mp4"; "tmp/c.m4a"] ∧
     encoderCalls s =
       [{| op := OpMerge; input := "tmp/b.mp4"; output := "out/My Video Part 1.mkv" |}]) ∧
  (∃ s,
     heap (Demo.run (Demo.started Demo.oneStream) [Stream 0 0 EvEnd 6 6]) !! 0%nat
       = Some s ∧
     destiantions s = ["tmp/b.m4a"] ∧
     encoderCalls s =
       [{| op := OpConvert; input := "tmp/b.m4a"; output := "out/My Video Part 1.mp3" |}]).
Proof.
  repeat split; eexists; (split; [vm_compute; reflexivity|]);
    split; vm_compute; reflexivity.
Qed.

(** C5. A cancel request is not ignored after a terminal status: [cancel]
    always publishes [cancelled]; for a one-stream session that has finished
    (its temporary file is unlinked), [cancelDownload] turns the recorded
    status from [finish] into [cancelled]. *)
Theorem C5_cancel_after_finish_overwrites_status :
  (∀ s, updates (cancel s) = updates s ++ [statusProps Cancelled] ∧
        recordedStatus (cancel s) = Cancelled) ∧
  (∃ s, heap Demo.finished !! 0%nat = Some s ∧
        recordedStatus s = Finish ∧
        files Demo.finished = ∅ ∧
        activeDownloads Demo.finished !! "a" = Some 0%nat) ∧
  (∃ s, heap (Demo.step Demo.finished (CancelDownload "a")) !! 0%nat = Some s ∧
        recordedStatus s = Cancelled ∧
        last (updates s) = Some (statusProps Cancelled)).
Proof.
  split; [|split].
  - intros s. split; [reflexivity|apply cancel_status].
  - eexists. split; [vm_compute; reflexivity|].
    repeat split; vm_compute; reflexivity.
  - eexists. split; [vm_compute; reflexivity|].
    split; vm_compute; reflexivity.
Qed.

(** C3. The published speed is not the difference of the two most recent
    progress values over the elapsed time. A stream reports 100 bytes at time
    1000 and 300 bytes at time 1500: the speed published with the second
    sample is the number 50000, that is (100 + 300) / 4 * 500, where the
    difference over the elapsed time is 200 / 500. For the first sample of a
    stream the factor is the time since the epoch: 123457 bytes handled at
    time 1762000000123 publish the binary64 number 54382808503796304. Two
    samples handled in the same millisecond publish speed 0; nothing is
    divided, so nothing guards a division. *)
Theorem C3_speed_is_sum_times_interval :
  (∃ s p v,
     heap (Demo.run (Demo.started Demo.oneStream)
             [Stream 0 0 (EvProgress 100 100 1000) 1000 1000]) !! 0%nat = Some s ∧
     last (updates (on_progress 0 300 1000 1500 1500 s)) = Some p ∧
     p_speed p = Some v ∧ integerValue v = Some 50000 ∧
     (specSpeed 100 300 (1500 - 1000) == 2 # 5)%Q ∧
     ¬ (inject_Z 50000 == specSpeed 100 300 (1500 - 1000))%Q) ∧
  (∃ s p v,
     heap (Demo.started Demo.oneStream) !! 0%nat = Some s ∧
     last (updates (on_progress 0 123457 1000000 1762000000123 1762000000123 s))
       = Some p ∧
     p_speed p = Some v ∧ integerValue v = Some 54382808503796304 ∧
     ¬ (inject_Z 54382808503796304 == specSpeed 0 123457 (1762000000123 - 0))%Q) ∧
  (∃ s p v,
     heap (Demo.run (Demo.started Demo.oneStream)
             [Stream 0 0 (EvProgress 100 100 1000) 1000 1000]) !! 0%nat = Some s ∧
     last (updates (on_progress 0 300 1000 1000 1000 s)) = Some p ∧
     p_speed p = Some v ∧ integerValue v = Some 0).
Proof.
  split; [|split].
  - eexists _, _, _. split; [vm_compute; reflexivity|].
    split; [vm_compute; reflexivity|]. split; [reflexivity|].
    split; [vm_compute; reflexivity|]. split; [vm_compute; reflexivity|].
    intros H. vm_compute in H. discriminate H.
  - eexists _, _, _. split; [vm_compute; reflexivity|].
    split; [vm_compute; reflexivity|]. split; [reflexivity|].
    split; [vm_compute; reflexivity|].
    intros H. vm_compute in H. discriminate H.
  - eexists _, _, _. split; [vm_compute; reflexivity|].
    split; [vm_compute; reflexivity|]. split; [reflexivity|].
    vm_compute. reflexivity.
Qed.

Lemma C4_progress_never_exceeds_size_witness :
  Forall sampleOk Demo.samples ∧
  (∀ a, a ∈ sent (Demo.run emptyWorld Demo.samples) → add_progress a ≤ add_size a) ∧
  (∀ s p pr sz,
      s ∈ heap (Demo.run emptyWorld Demo.samples) → p ∈ updates s →
      p_progress p = Some pr → p_size p = Some sz → pr ≤ sz).
Proof.
  assert (H : Forall sampleOk Demo.samples).
  { unfold Demo.samples. repeat apply Forall_cons_2; simpl; try lia; try exact I.
    apply Forall_nil_2. }
  split; [exact H|].
  exact (C4_progress_never_exceeds_size Demo.uid Demo.mkdir Demo.join Demo.join
           Demo.samples H).
Defined.



Lemma C7_stream_error_aborts_session_witness :
  ∃ s c,
    heap (Demo.started Demo.twoStreams) !! 0%nat = Some s ∧
    closures s !! 1%nat = Some c ∧
    length (sourceStreams s) = 2%nat ∧
    NoDup (destiantions s) ∧
    (∀ d, d ∈ destiantions s → d ∈ files (Demo.started Demo.twoStreams)) ∧
    (Forall isDestroyed
       (sourceStreams
          (on_error 1 (CauseError "ECONNRESET") (s, files (Demo.started Demo.twoStreams))).1) ∧
     length (sourceStreams
          (on_error 1 (CauseError "ECONNRESET") (s, files (Demo.started Demo.twoStreams))).1)
       = length (sourceStreams s) ∧
     (∀ d, d ∈ destiantions s →
        d ∉ (on_error 1 (CauseError "ECONNRESET")
               (s, files (Demo.started Demo.twoStreams))).2) ∧
     (on_error 1 (CauseError "ECONNRESET") (s, files (Demo.started Demo.twoStreams))).2
       = files (Demo.started Demo.twoStreams) ∖ list_to_set (destiantions s) ∧
     updates (on_error 1 (CauseError "ECONNRESET")
                (s, files (Demo.started Demo.twoStreams))).1
       = updates s ++ [statusProps Errored] ∧
     recordedStatus (on_error 1 (CauseError "ECONNRESET")
                       (s, files (Demo.started Demo.twoStreams))).1 = Errored) ∧
    on_error 1 (CauseString "cancelled") (s, files (Demo.started Demo.twoStreams))
      = (s, files (Demo.started Demo.twoStreams)).
Proof.
  eexists _, _. split; [vm_compute; reflexivity|].
  split; [reflexivity|]. split; [reflexivity|].
  match goal with |- NoDup ?l ∧ _ => assert (Hnd : NoDup l) end.
  { apply (bool_decide_unpack _). vm_compute. exact I. }
  split; [exact Hnd|].
  match goal with |- (∀ d, d ∈ ?l → d ∈ ?fs) ∧ _ =>
    assert (Hin : ∀ d, d ∈ l → d ∈ fs) end.
  { intros d Hd. apply (bool_decide_unpack _).
    cbn [destiantions] in Hd. 
    apply elem_of_cons in Hd as [->|Hd]; [vm_compute; exact I|].
    apply elem_of_cons in Hd as [->|Hd]; [vm_compute; exact I|].
    inversion Hd. }
  split; [exact Hin|]. split.
  - refine (C7_stream_error_aborts_session _ _ 1 _ (CauseError "ECONNRESET")
              _ Hnd Hin).
    reflexivity.
  - refine (C7_stream_error_aborts_session _ _ 1 _ (CauseString "cancelled")
              _ Hnd Hin).
    reflexivity.
Defined.

Lemma C8_convert_when_all_streams_ended_witness :
  ∃ s c0 c1,
    heap (Demo.run emptyWorld Demo.samples) !! 0%nat = Some s ∧
    closures s = [c0; c1] ∧ lastSize c0 = 1000 ∧ lastSize c1 = 2000 ∧
    (1 < 2)%nat ∧ S (done s) = length (sources (request s)) ∧
    (∃ p, last (updates (on_end Demo.mkdir Demo.join Demo.join 1 s)) = Some p ∧
          p_status p = Some Convert ∧
          p_progress p = Some 3000 ∧ p_size p = Some 3000) ∧
    done (on_end Demo.mkdir Demo.join Demo.join 1 s) = S (done s).
Proof.
  eexists _, _, _.
  split; [vm_compute; reflexivity|].
  split; [reflexivity|]. split; [reflexivity|]. split; [reflexivity|].
  split; [lia|]. split; [reflexivity|]. split.
  - refine (proj2 (C8_convert_when_all_streams_ended
                     Demo.uid Demo.mkdir Demo.join Demo.join)
              Demo.samples 0%nat _ _ _ 1%nat _ _ _ _ _ _);
      [vm_compute; reflexivity|reflexivity|reflexivity|reflexivity|lia|reflexivity].
  - refine (proj1 (proj1 (C8_convert_when_all_streams_ended
                     Demo.uid Demo.mkdir Demo.join Demo.join) _ 1%nat _ _)).
    reflexivity.
Defined.



(** ** Title sanitisation, continued *)

Lemma filteredTitle_sanitize (t : string) :
  Title.filteredTitle t = Title.spec_sanitize t.
Proof.
  unfold Title.filteredTitle, Title.spec_sanitize.
  rewrite replace_class_blank. apply replace_runs_collapse.
Qed.

Lemma spec_blank_fixed (t : string) :
  (∀ a, a ∈ Title.chars t → a ∉ Title.forbidden) → Title.spec_blank t = t.
Proof.
  induction t as [|a t IH]; [done|]. cbn [Title.spec_blank Title.chars].
  intros H. rewrite IH by (intros b Hb; apply H; by right).
  rewrite bool_decide_eq_false_2 by (apply H; by left). done.
Qed.

Lemma spec_collapse_fixed (t : string) :
  Title.no_double_space t → Title.spec_collapse t = t.
Proof.
  induction t as [|a t IH]; [done|]. cbn [Title.spec_collapse Title.no_double_space].
  intros [Ha Ht]. rewrite (IH Ht).
  destruct (Stdlib.Strings.Ascii.eqb a " ") eqn:Heq; [|done].
  apply Stdlib.Strings.Ascii.eqb_eq in Heq. by rewrite (Ha Heq).
Qed.

Lemma spec_blank_length (t : string) :
  String.length (Title.spec_blank t) = String.length t.
Proof. induction t as [|a t IH]; [done|]. simpl. by rewrite IH. Qed.

Lemma spec_collapse_length (t : string) :
  (String.length (Title.spec_collapse t) ≤ String.length t)%nat.
Proof.
  induction t as [|a t IH]; [done|]. cbn [Title.spec_collapse].
  destruct (_ && _); simpl; lia.
Qed.

Lemma spec_collapse_empty (t : string) :
  Title.spec_collapse t = EmptyString → t = EmptyString.
Proof.
  induction t as [|a t IH]; [done|]. cbn [Title.spec_collapse].
  destruct (Stdlib.Strings.Ascii.eqb a " " && Title.starts_with_space t) eqn:Hd; [|done].
  intros Ht. apply IH in Ht. subst t. apply andb_prop in Hd as [_ Hd]. done.
Qed.

(** X1. A title that contains none of the ten characters of the class and no
    two neighbouring spaces is left as it is. *)
Theorem X1_clean_title_unchanged (t : string) :
  (∀ a, a ∈ Title.chars t → a ∉ Title.forbidden) →
  Title.no_double_space t →
  Title.filteredTitle t = t.
Proof.
  intros Hclean Hsp. rewrite filteredTitle_sanitize. unfold Title.spec_sanitize.
  rewrite (spec_blank_fixed t Hclean). by apply spec_collapse_fixed.
Qed.

(** X2. Sanitising is idempotent: a sanitised title is not changed by a
    second pass. *)
Theorem X2_sanitising_twice (t : string) :
  Title.filteredTitle (Title.filteredTitle t) = Title.filteredTitle t.
Proof.
  rewrite !filteredTitle_sanitize. unfold Title.spec_sanitize.
  rewrite spec_blank_fixed.
  - apply spec_collapse_fixed, spec_collapse_no_double.
  - intros a Ha. eapply spec_blank_clean, spec_collapse_chars, Ha.
Qed.

(** X3. The sanitised title is never longer than the title, and it is empty
    only for the empty title: a title made of forbidden characters and spaces
    only still yields a (one-space) file name, nothing is trimmed away. *)
Theorem X3_sanitised_length (t : string) :
  (String.length (Title.filteredTitle t) ≤ String.length t)%nat ∧
  (Title.filteredTitle t = EmptyString ↔ t = EmptyString).
Proof.
  rewrite filteredTitle_sanitize. unfold Title.spec_sanitize. split.
  - etrans; [apply spec_collapse_length|]. by rewrite spec_blank_length.
  - split; [|by intros ->].
    intros H%spec_collapse_empty. by destruct t.
Qed.

Lemma X1_clean_title_unchanged_witness :
  Title.filteredTitle "Clean title 1" = "Clean title 1".
Proof.
  apply X1_clean_title_unchanged.
  - intros a Ha. apply (bool_decide_unpack _).
    cbn [Title.chars] in Ha.
    repeat (apply elem_of_cons in Ha as [->|Ha]; [vm_compute; exact I|]).
    inversion Ha.
  - simpl. repeat split; intros; done.
Defined.

(** ** [getVideoInfo] *)

Section GetVideoInfoProperties.

Context {D V : Type}.
Variable truthy : V → bool.
Variable toPropertyKey : V → string.
Variable ownEnumerable : V → gmap string V.
Variable id3tags : string → V.
Variable getBasicInfo : string → option (VideoInfo D (RawFormat V)).

Local Abbreviation resolveFormats :=
  (resolveFormats truthy toPropertyKey ownEnumerable id3tags).
Local Abbreviation keptFormat := (keptFormat truthy toPropertyKey id3tags).
Local Abbreviation getVideoInfo :=
  (getVideoInfo truthy toPropertyKey ownEnumerable id3tags getBasicInfo).

Lemma resolveFormats_app (formats : list (RawFormat V)) acc :
  resolveFormats formats acc = acc ++ resolveFormats formats [].
Proof.
  revert acc. induction formats as [|f formats IH]; intros acc; simpl.
  - by rewrite app_nil_r.
  - destruct (truthy (if truthy (raw_itag f)
                      then id3tags (toPropertyKey (raw_itag f)) else raw_itag f));
      [|apply IH].
    rewrite IH, (IH [_]). by rewrite <- app_assoc.
Qed.

Lemma resolveFormats_cons (f : RawFormat V) (formats : list (RawFormat V)) :
  resolveFormats (f :: formats) [] =
    (if keptFormat f then
       [<["itag" := raw_itag f]>
          (<["url" := raw_url f]>
             (<["clen" := raw_clen f]>
                (ownEnumerable (id3tags (toPropertyKey (raw_itag f))))))]
     else []) ++ resolveFormats formats [].
Proof.
  simpl. unfold keptFormat.
  destruct (truthy (raw_itag f)) eqn:Hi; simpl.
  - destruct (truthy (id3tags (toPropertyKey (raw_itag f)))); [|done].
    by rewrite resolveFormats_app.
  - by rewrite Hi.
Qed.

(** X4. [getVideoInfo] asks for the watch page of the video id and fails
    exactly when that request fails; otherwise it passes everything but
    [formats] on unchanged, and the itags of the formats it returns are, as
    the values they were reported with and in their order, the itags of the
    reported formats that are truthy and name a truthy property of the
    table; formats whose itag is falsy (undefined, the number 0, the empty
    string) or unknown to the table are left out. *)
Theorem X4_getVideoInfo_keeps_known_itags (videoid : string) :
  match getBasicInfo ("https://www.youtube.com/watch?v=" +:+ videoid) with
  | None => getVideoInfo videoid = None
  | Some info =>
      ∃ info',
        getVideoInfo videoid = Some info' ∧
        info_rest info' = info_rest info ∧
        (λ r : gmap string V, r !! "itag") <$> info_formats info' =
          (λ f, Some (raw_itag f)) <$>
            filter (λ f, keptFormat f = true) (info_formats info)
  end.
Proof.
  unfold getVideoInfo, watchUrl.
  destruct (getBasicInfo _) as [info|]; [|done].
  eexists. split; [done|]. split; [done|]. simpl.
  induction (info_formats info) as [|f formats IH]; [done|].
  rewrite resolveFormats_cons, fmap_app, IH.
  destruct (keptFormat f) eqn:Hk.
  - rewrite filter_cons_True by done. simpl. by rewrite lookup_insert_eq.
  - rewrite filter_cons_False by (by rewrite Hk). done.
Qed.

(** X5. Every format returned by [getVideoInfo] stems from a reported format
    whose itag is truthy and names a truthy property of the table: its
    [itag], [url] and [clen] are the values of the reported format, also
    where the table entry has such a key of its own, and every other field
    is an own enumerable property of the table entry. *)
Theorem X5_resolved_format_fields (videoid : string)
    (info : VideoInfo D (RawFormat V)) (info' : VideoInfo D (gmap string V))
    (r : gmap string V) :
  getBasicInfo ("https://www.youtube.com/watch?v=" +:+ videoid) = Some info →
  getVideoInfo videoid = Some info' →
  r ∈ info_formats info' →
  ∃ f,
    f ∈ info_formats info ∧
    truthy (raw_itag f) = true ∧
    truthy (id3tags (toPropertyKey (raw_itag f))) = true ∧
    r !! "itag" = Some (raw_itag f) ∧
    r !! "url" = Some (raw_url f) ∧
    r !! "clen" = Some (raw_clen f) ∧
    ∀ k, k ≠ "itag" → k ≠ "url" → k ≠ "clen" →
      r !! k = ownEnumerable (id3tags (toPropertyKey (raw_itag f))) !! k.
Proof.
  unfold getVideoInfo, watchUrl. intros -> [= <-]. simpl.
  induction (info_formats info) as [|f formats IH]; [by intros ?%elem_of_nil|].
  rewrite resolveFormats_cons. intros [Hr|Hr]%elem_of_app.
  - destruct (keptFormat f) eqn:Hk; [|by apply elem_of_nil in Hr].
    apply andb_prop in Hk as [Hi Ht].
    apply list_elem_of_singleton in Hr as ->.
    exists f. split; [by left|].
    split; [done|]. split; [done|].
    split; [by rewrite lookup_insert_eq|].
    split; [by rewrite lookup_insert_ne, lookup_insert_eq by done|].
    split; [by rewrite !lookup_insert_ne, lookup_insert_eq by done|].
    intros k H1 H2 H3. by rewrite !lookup_insert_ne by done.
  - destruct (IH Hr) as (f' & Hf & H). exists f'. split; [by right|done].
Qed.

End GetVideoInfoProperties.

Lemma X5_resolved_format_fields_witness :
  ∃ f,
    f ∈ DemoInfo.reported ∧
    DemoInfo.truthy (raw_itag f) = true ∧
    DemoInfo.truthy (DemoInfo.table (DemoInfo.toPropertyKey (raw_itag f))) = true ∧
    DemoInfo.zeroFormat !! "itag" = Some (raw_itag f) ∧
    DemoInfo.zeroFormat !! "url" = Some (raw_url f) ∧
    DemoInfo.zeroFormat !! "clen" = Some (raw_clen f) ∧
    ∀ k, k ≠ "itag" → k ≠ "url" → k ≠ "clen" →
      DemoInfo.zeroFormat !! k =
        DemoInfo.ownEnumerable (DemoInfo.table (DemoInfo.toPropertyKey (raw_itag f))) !! k.
Proof.
  refine (X5_resolved_format_fields DemoInfo.truthy DemoInfo.toPropertyKey
            DemoInfo.ownEnumerable DemoInfo.table DemoInfo.basic "abc"
            {| info_rest := "details"; info_formats := DemoInfo.reported |}
            {| info_rest := "details";
               info_formats :=
                 resolveFormats DemoInfo.truthy DemoInfo.toPropertyKey
                   DemoInfo.ownEnumerable DemoInfo.table DemoInfo.reported [] |}
            DemoInfo.zeroFormat _ _ _).
  - reflexivity.
  - reflexivity.
  - apply list_elem_of_lookup. exists 1%nat. vm_compute. reflexivity.
Defined.

(** ** [startDownload], continued *)

Section MoreProperties.

Variable createUID : nat → string.
Variable mkdirIfNotPresent : string → string.
Variable path_join : string → string → string.
Variable path_resolve : string → string → string.

Local Abbreviation on_end := (on_end mkdirIfNotPresent path_join path_resolve).
Local Abbreviation deliver := (deliver mkdirIfNotPresent path_join path_resolve).
Local Abbreviation spawn := (spawn createUID path_join).
Local Abbreviation spawnIn := (spawnIn createUID path_join).
Local Abbreviation tempPaths := (tempPaths createUID path_join).
Local Abbreviation startDownload := (startDownload createUID path_join).
Local Abbreviation step := (step createUID mkdirIfNotPresent path_join path_resolve).
Local Abbreviation run := (run createUID mkdirIfNotPresent path_join path_resolve).

Lemma spawn_closed_form tmp srcs acc :
  sp_uidCalls (spawn tmp srcs acc) = (sp_uidCalls acc + length srcs)%nat ∧
  sp_files (spawn tmp srcs acc)
    = list_to_set (tempPaths tmp (sp_uidCalls acc) srcs) ∪ sp_files acc ∧
  sp_destiantions (spawn tmp srcs acc)
    = sp_destiantions acc ++ tempPaths tmp (sp_uidCalls acc) srcs ∧
  sp_sourceStreams (spawn tmp srcs acc)
    = sp_sourceStreams acc ++ replicate (length srcs) Live ∧
  sp_closures (spawn tmp srcs acc)
    = sp_closures acc ++ (freshClosure <$> tempPaths tmp (sp_uidCalls acc) srcs).
Proof using createUID path_join.
  clear mkdirIfNotPresent path_resolve. revert acc. induction srcs as [|src srcs IH]; intros acc.
  - simpl. rewrite !app_nil_r. repeat split; [lia|set_solver].
  - simpl.
    destruct (IH {| sp_uidCalls := S (sp_uidCalls acc);
                    sp_files := {[path_join tmp
                                    (createUID (sp_uidCalls acc) +:+ "." +:+ container src)]}
                                ∪ sp_files acc;
                    sp_destiantions := sp_destiantions acc ++
                      [path_join tmp (createUID (sp_uidCalls acc) +:+ "." +:+ container src)];
                    sp_sourceStreams := sp_sourceStreams acc ++ [Live];
                    sp_closures := sp_closures acc ++
                      [{| destinationDirectory :=
                            path_join tmp
                              (createUID (sp_uidCalls acc) +:+ "." +:+ container src);
                          lastProgressTimestamp := 0; lastProgress := 0;
                          lastSize := 0 |}] |})
      as (H1 & H2 & H3 & H4 & H5).
    cbn [sp_uidCalls sp_files sp_destiantions sp_sourceStreams sp_closures] in H1, H2, H3, H4, H5.
    rewrite H1, H2, H3, H4, H5, <- !app_assoc. cbn [list_to_set].
    repeat split; [lia|set_solver].
Qed.

Lemma tempPaths_length tmp k srcs : length (tempPaths tmp k srcs) = length srcs.
Proof using createUID path_join. revert k. induction srcs as [|src srcs IH]; intros k; simpl; [done|]. by rewrite IH. Qed.

Lemma startDownload_closed_form (w : World) (req : Request) (cfg : Settings) (now : Z) :
  heap (startDownload req cfg now w).1 =
    heap w ++
      [{| downloadId := createUID (uidCalls w); request := req; settings := cfg;
          downloadDirectory := settingsDownloadDirectory cfg;
          totalProgress := 0; totalSize := 0; done := 0;
          destiantions :=
            tempPaths (temporaryDirectory cfg) (S (uidCalls w)) (sources req);
          sourceStreams := replicate (length (sources req)) Live;
          closures :=
            freshClosure <$>
              tempPaths (temporaryDirectory cfg) (S (uidCalls w)) (sources req);
          updates := []; encoderCalls := []; pending := [] |}] ∧
  files (startDownload req cfg now w).1 =
    list_to_set (tempPaths (temporaryDirectory cfg) (S (uidCalls w)) (sources req))
      ∪ files w ∧
  uidCalls (startDownload req cfg now w).1
    = (uidCalls w + 1 + length (sources req))%nat ∧
  length (tempPaths (temporaryDirectory cfg) (S (uidCalls w)) (sources req))
    = length (sources req).
Proof using createUID path_join.
  destruct (spawn_closed_form (temporaryDirectory cfg) (sources req)
              {| sp_uidCalls := S (uidCalls w); sp_files := files w;
                 sp_destiantions := []; sp_sourceStreams := []; sp_closures := [] |})
    as (H1 & H2 & H3 & H4 & H5).
  cbn [sp_uidCalls sp_files sp_destiantions sp_sourceStreams sp_closures app] in H1, H2, H3, H4, H5.
  split; [|split; [|split]].
  - simpl. unfold newSession, spawnIn. by rewrite H3, H4, H5.
  - exact H2.
  - simpl. unfold spawnIn. rewrite H1. lia.
  - apply tempPaths_length.
Qed.

(** X6. [startDownload] appends one session and leaves the others as they
    are. The new session has one live stream and one temporary file per
    source, in the order of the sources; the file of the [i]-th source is
    named by the result of the [createUID] call that follows the one that
    gave the download id by [i + 1] calls; all counters are zero and nothing
    is published yet. The temporary files are added to the disk, and
    [1 + sources.length] ids are consumed. *)
Theorem X6_startDownload_shape (w : World) (req : Request) (cfg : Settings) (now : Z) :
  heap (startDownload req cfg now w).1 =
    heap w ++
      [{| downloadId := createUID (uidCalls w); request := req; settings := cfg;
          downloadDirectory := settingsDownloadDirectory cfg;
          totalProgress := 0; totalSize := 0; done := 0;
          destiantions :=
            tempPaths (temporaryDirectory cfg) (S (uidCalls w)) (sources req);
          sourceStreams := replicate (length (sources req)) Live;
          closures :=
            freshClosure <$>
              tempPaths (temporaryDirectory cfg) (S (uidCalls w)) (sources req);
          updates := []; encoderCalls := []; pending := [] |}] ∧
  files (startDownload req cfg now w).1 =
    list_to_set (tempPaths (temporaryDirectory cfg) (S (uidCalls w)) (sources req))
      ∪ files w ∧
  uidCalls (startDownload req cfg now w).1
    = (uidCalls w + 1 + length (sources req))%nat ∧
  length (tempPaths (temporaryDirectory cfg) (S (uidCalls w)) (sources req))
    = length (sources req).
Proof using createUID path_join. apply startDownload_closed_form. Qed.

(** *** What no handler changes *)

Lemma on_progress_static i progress size now now' s :
  request (on_progress i progress size now now' s) = request s ∧
  downloadId (on_progress i progress size now now' s) = downloadId s ∧
  destiantions (on_progress i progress size now now' s) = destiantions s ∧
  sourceStreams (on_progress i progress size now now' s) = sourceStreams s ∧
  encoderCalls (on_progress i progress size now now' s) = encoderCalls s ∧
  pending (on_progress i progress size now now' s) = pending s ∧
  done (on_progress i progress size now now' s) = done s ∧
  downloadDirectory (on_progress i progress size now now' s) = downloadDirectory s.
Proof. unfold on_progress. by destruct (closures s !! i). Qed.

Lemma on_end_static i s :
  request (on_end i s) = request s ∧ downloadId (on_end i s) = downloadId s.
Proof.
  destruct (closures s !! i) as [c|] eqn:Hc.
  - destruct (on_end_eq mkdirIfNotPresent path_join path_resolve i s c Hc) as [dir ->].
    by case_decide.
  - unfold on_end. by rewrite Hc.
Qed.

Lemma on_error_static i e s fs :
  request (on_error i e (s, fs)).1 = request s ∧
  downloadId (on_error i e (s, fs)).1 = downloadId s ∧
  encoderCalls (on_error i e (s, fs)).1 = encoderCalls s ∧
  pending (on_error i e (s, fs)).1 = pending s ∧
  done (on_error i e (s, fs)).1 = done s ∧
  downloadDirectory (on_error i e (s, fs)).1 = downloadDirectory s ∧
  length (sourceStreams (on_error i e (s, fs)).1) = length (sourceStreams s).
Proof.
  unfold on_error. destruct (closures s !! i); [|done].
  destruct (is_cancelled e); [done|].
  destruct (unlinkAll _ fs) as [fs' []]; simpl; by rewrite length_fmap.
Qed.

Lemma on_settled_static ok now s fs :
  request (on_settled ok now (s, fs)).1 = request s ∧
  downloadId (on_settled ok now (s, fs)).1 = downloadId s ∧
  encoderCalls (on_settled ok now (s, fs)).1 = encoderCalls s ∧
  done (on_settled ok now (s, fs)).1 = done s ∧
  downloadDirectory (on_settled ok now (s, fs)).1 = downloadDirectory s.
Proof.
  unfold on_settled. destruct (pending s); [done|]. by destruct ok.
Qed.

Lemma deliver_static i sev now now' s fs :
  request (deliver i sev now now' (s, fs)).1 = request s ∧
  downloadId (deliver i sev now now' (s, fs)).1 = downloadId s.
Proof.
  destruct sev as [chunk progress size| |e]; unfold deliver; cbn [fst snd].
  - split; apply on_progress_static.
  - apply on_end_static.
  - split; apply on_error_static.
Qed.

(** *** Alignment of the per-stream lists *)

Lemma wellShaped_reachable (evs : list Event) :
  Forall wellShaped (heap (run emptyWorld evs)).
Proof.
  apply (run_invariant createUID mkdirIfNotPresent path_join path_resolve
           wellShaped (λ _, True)); [..|by apply Forall_true|constructor].
  - intros id req cfg w.
    destruct (spawn_closed_form (temporaryDirectory cfg) (sources req)
                {| sp_uidCalls := S (uidCalls w); sp_files := files w;
                   sp_destiantions := []; sp_sourceStreams := []; sp_closures := [] |})
      as (_ & _ & H3 & H4 & H5).
    unfold wellShaped, newSession, spawnIn. cbn [closures destiantions sourceStreams request].
    rewrite H3, H4, H5. simpl. rewrite length_replicate. split; [|split; [|done]].
    + rewrite <- list_fmap_compose. apply list_fmap_id.
    + apply tempPaths_length.
  - intros ref i sev now now' s fs _ (Hc & Hd & Hs).
    destruct (deliver_static i sev now now' s fs) as [Hreq _].
    unfold wellShaped. rewrite Hreq.
    destruct sev as [chunk progress size| |e]; unfold deliver; cbn [fst snd].
    + destruct (on_progress_static i progress size now now' s)
        as (_ & _ & Hd' & Hs' & _).
      rewrite Hd', Hs'. split; [|done].
      unfold on_progress. destruct (closures s !! i) as [c|] eqn:Hci; [|done].
      simpl. rewrite list_fmap_insert. simpl. rewrite Hc.
      apply list_insert_id. rewrite <- Hc, list_lookup_fmap, Hci. done.
    + destruct (on_end_frame mkdirIfNotPresent path_join path_resolve i s)
        as (Hc' & _ & _ & Hd' & Hs' & _).
      by rewrite Hc', Hd', Hs'.
    + destruct (on_error_frame i e s fs) as (Hc' & _ & _ & Hd' & _).
      destruct (on_error_static i e s fs) as (_ & _ & _ & _ & _ & _ & Hl).
      by rewrite Hc', Hd', Hl.
  - intros ok now s fs (Hc & Hd & Hs).
    destruct (on_settled_frame ok now s fs) as (Hc' & _ & _ & Hd' & Hs' & _).
    destruct (on_settled_static ok now s fs) as (Hreq & _).
    unfold wellShaped. by rewrite Hc', Hd', Hs', Hreq.
  - intros s (Hc & Hd & Hs). unfold wellShaped. simpl. by rewrite length_fmap.
Qed.

(** X7. In every run of the process, every session keeps its three
    per-stream lists aligned with its sources: the handlers of stream [i]
    close over the [i]-th temporary file, and there are as many temporary
    files and as many streams as sources. *)
Theorem X7_sessions_stay_aligned (evs : list Event) (s : Session) :
  s ∈ heap (run emptyWorld evs) →
  destinationDirectory <$> closures s = destiantions s ∧
  length (destiantions s) = length (sources (request s)) ∧
  length (sourceStreams s) = length (sources (request s)).
Proof.
  intros Hs. by apply (proj1 (Forall_forall _ _) (wellShaped_reachable evs) s Hs).
Qed.

(** *** The registry and the sessions *)

Lemma setHeap_registryOk (w : World) (ref : nat) (s0 s' : Session) (fs : gset string) :
  heap w !! ref = Some s0 → downloadId s' = downloadId s0 →
  registryOk w → registryOk (setHeap ref s' fs w).
Proof.
  intros Hs0 Hid [Hreg Hsent]. split; simpl.
  - intros id r Hr. destruct (Hreg id r Hr) as (s1 & Hs1 & Hid1).
    destruct (decide (r = ref)) as [->|Hne].
    + exists s'. split; [apply list_lookup_insert_eq; by eapply lookup_lt_Some|].
      congruence.
    + exists s1. by rewrite list_lookup_insert_ne.
  - rewrite list_fmap_insert, Hid, <- Hsent. symmetry. apply list_insert_id.
    by rewrite Hsent, list_lookup_fmap, Hs0.
Qed.

Lemma step_registryOk (w : World) (ev : Event) :
  registryOk w → registryOk (step w ev).
Proof.
  intros Hw. destruct ev as [req cfg now|ref i sev now now'|ref ok now|id]; simpl.
  - destruct Hw as [Hreg Hsent]. split; [|simpl; by rewrite !fmap_app, Hsent].
    assert (Hold : ∀ id r, lookupDownload w id = Handle r →
              ∃ s, (heap w ++ [newSession (createUID (uidCalls w)) req cfg
                                 (spawnIn w req cfg)]) !! r = Some s ∧
                   downloadId s = id).
    { intros id r Hr. destruct (Hreg id r Hr) as (s1 & Hs1 & Hid1).
      exists s1. split; [|done]. rewrite lookup_app_l; [done|].
      by eapply lookup_lt_Some. }
    assert (Hnew : (heap w ++ [newSession (createUID (uidCalls w)) req cfg
                                 (spawnIn w req cfg)]) !! length (heap w)
                   = Some (newSession (createUID (uidCalls w)) req cfg
                             (spawnIn w req cfg))).
    { by rewrite lookup_app_r, Nat.sub_diag by lia. }
    intros id r Hr. apply lookupDownload_Handle in Hr. simpl in Hr.
    destruct (decide (createUID (uidCalls w) = "__proto__")) as [Hp|Hp].
    + destruct Hr as [[Hne Hr]|[-> [= <-]]].
      * apply Hold. apply lookupDownload_Handle. by left.
      * eexists. split; [exact Hnew|]. done.
    + destruct Hr as [[Hne Hr]|[-> Hproto]].
      * rewrite lookup_insert in Hr. case_decide as Hid.
        -- injection Hr as <-. subst id. eexists. split; [exact Hnew|]. done.
        -- apply Hold. apply lookupDownload_Handle. by left.
      * apply Hold. apply lookupDownload_Handle. by right.
  - destruct (heap w !! ref) as [s|] eqn:Hs; [|done].
    eapply setHeap_registryOk; [done| |done]. apply deliver_static.
  - destruct (heap w !! ref) as [s|] eqn:Hs; [|done].
    eapply setHeap_registryOk; [done| |done]. apply on_settled_static.
  - unfold cancelDownload. simpl.
    destruct (lookupDownload w id) as [ref| |]; [|done..].
    destruct (heap w !! ref) as [s|] eqn:Hs; [|done].
    by eapply setHeap_registryOk.
Qed.

Lemma registryOk_reachable (evs : list Event) : registryOk (run emptyWorld evs).
Proof.
  assert (H : ∀ w, registryOk w → registryOk (run w evs)).
  { induction evs as [|ev evs IH]; intros w Hw; [done|].
    simpl. apply IH. by apply step_registryOk. }
  apply H. split; [|done]. intros id ref Hid.
  apply lookupDownload_Handle in Hid. unfold emptyWorld in Hid.
  cbn [activeDownloads prototype] in Hid. rewrite lookup_empty in Hid.
  by destruct Hid as [[_ ?]|[_ ?]].
Qed.

Lemma step_registered (w : World) (ev : Event) :
  (∀ r s, heap w !! r = Some s → ∃ ref, lookupDownload w (downloadId s) = Handle ref) →
  ∀ r s, heap (step w ev) !! r = Some s →
    ∃ ref, lookupDownload (step w ev) (downloadId s) = Handle ref.
Proof.
  intros Hw.
  assert (Hset : ∀ ref s0 s' fs, heap w !! ref = Some s0 →
            downloadId s' = downloadId s0 →
            ∀ r s, heap (setHeap ref s' fs w) !! r = Some s →
              ∃ ref', lookupDownload (setHeap ref s' fs w) (downloadId s) = Handle ref').
  { intros ref s0 s' fs Hs0 Hid r s Hs. cbn [setHeap heap] in Hs.
    change (lookupDownload (setHeap ref s' fs w) (downloadId s))
      with (lookupDownload w (downloadId s)).
    destruct (decide (r = ref)) as [->|Hne].
    - rewrite list_lookup_insert_eq in Hs by (by eapply lookup_lt_Some).
      injection Hs as <-. rewrite Hid. by eapply Hw.
    - rewrite list_lookup_insert_ne in Hs by done. by eapply Hw. }
  destruct ev as [req cfg now|ref i sev now now'|ref ok now|id]; simpl.
  - intros r s Hs. apply lookup_app_Some in Hs as [Hs|[_ Hs]].
    + destruct (Hw r s Hs) as [ref Href].
      apply lookupDownload_Handle in Href.
      destruct (decide (createUID (uidCalls w) = "__proto__")) as [Hp|Hp].
      * destruct Href as [[Hne Href]|[Hid Href]].
        -- exists ref. apply lookupDownload_Handle. by left.
        -- exists (length (heap w)). apply lookupDownload_Handle. by right.
      * destruct Href as [[Hne Href]|[Hid Href]].
        -- destruct (decide (createUID (uidCalls w) = downloadId s)) as [He|He].
           ++ exists (length (heap w)). apply lookupDownload_Handle. left.
              split; [done|]. cbn [activeDownloads].
              rewrite He. apply lookup_insert_eq.
           ++ exists ref. apply lookupDownload_Handle. left.
              split; [done|]. cbn [activeDownloads].
              by rewrite lookup_insert_ne.
        -- exists ref. apply lookupDownload_Handle. by right.
    + apply list_lookup_singleton_Some in Hs as [_ <-]. cbn [downloadId newSession].
      exists (length (heap w)). apply startDownload_lookup.
  - destruct (heap w !! ref) as [s0|] eqn:Hs0; [|exact Hw].
    eapply Hset; [done|]. apply deliver_static.
  - destruct (heap w !! ref) as [s0|] eqn:Hs0; [|exact Hw].
    eapply Hset; [done|]. apply on_settled_static.
  - unfold cancelDownload.
    destruct (lookupDownload w id) as [ref| |]; [|exact Hw..].
    destruct (heap w !! ref) as [s0|] eqn:Hs0; [|exact Hw].
    by eapply Hset.
Qed.

Lemma registered_reachable (evs : list Event) (r : nat) (s : Session) :
  heap (run emptyWorld evs) !! r = Some s →
  ∃ ref, lookupDownload (run emptyWorld evs) (downloadId s) = Handle ref.
Proof.
  assert (H : ∀ w,
            (∀ r s, heap w !! r = Some s →
                    ∃ ref, lookupDownload w (downloadId s) = Handle ref) →
            ∀ r s, heap (run w evs) !! r = Some s →
                   ∃ ref, lookupDownload (run w evs) (downloadId s) = Handle ref).
  { induction evs as [|ev evs IH]; intros w Hw; [done|].
    simpl. apply IH. by apply step_registered. }
  apply H. intros r' s' Hnil. cbn [emptyWorld heap] in Hnil.
  by rewrite lookup_nil in Hnil.
Qed.

(** X8. In every run of the process, [cancelDownload] reaches the session
    that was asked for and no other. When some session was started under the
    requested id, the request is answered [ok] and cancels one session, whose
    download id is the requested id, so that the [cancelled] patch is
    published under the id that was asked for. When no session was started
    under the requested id, the request changes nothing: it is answered [ok],
    unless the id names a property that the registry object inherits (one of
    every plain object, or [cancel] once a session was registered under
    [__proto__]), in which case it is rejected with a [TypeError]. *)
Theorem X8_cancel_reaches_only_its_session (evs : list Event) (id : string) :
  ((∃ r s, heap (run emptyWorld evs) !! r = Some s ∧ downloadId s = id) →
   ∃ ref s,
     heap (run emptyWorld evs) !! ref = Some s ∧ downloadId s = id ∧
     cancelDownload id (run emptyWorld evs)
       = (setHeap ref (cancel s) (files (run emptyWorld evs)) (run emptyWorld evs),
          Resolved "ok")) ∧
  ((∀ r s, heap (run emptyWorld evs) !! r = Some s → downloadId s ≠ id) →
   cancelDownload id (run emptyWorld evs) =
     (run emptyWorld evs,
      if decide (id ∈ objectPrototypeNames ∨
                 (id = "cancel" ∧ is_Some (prototype (run emptyWorld evs))))
      then Rejected "TypeError: item.cancel is not a function"
      else Resolved "ok")).
Proof.
  destruct (registryOk_reachable evs) as [Hreg _]. split.
  - intros (r & s0 & Hs0 & <-).
    destruct (registered_reachable evs r s0 Hs0) as [ref Href].
    destruct (Hreg _ ref Href) as (s & Hs & Hid).
    exists ref, s. split; [done|]. split; [done|].
    unfold cancelDownload. by rewrite Href, Hs.
  - intros Hnone. unfold cancelDownload.
    destruct (lookupDownload (run emptyWorld evs) id) as [ref| |] eqn:Hl.
    + destruct (Hreg id ref Hl) as (s & Hs & Hid). by destruct (Hnone ref s Hs).
    + f_equal. unfold lookupDownload in Hl.
      destruct (decide (id = "__proto__")) as [->|Hne].
      * rewrite decide_True; [done|]. left. unfold objectPrototypeNames. set_solver.
      * destruct (activeDownloads (run emptyWorld evs) !! id); [done|].
        destruct (decide (id ∈ objectPrototypeNames)) as [Hin|Hin].
        -- rewrite decide_True; [done|]. by left.
        -- destruct (prototype (run emptyWorld evs)) as [p|]; [|done].
           destruct (decide (id = "cancel")) as [->|Hc]; [|done].
           rewrite decide_True; [done|]. right. split; [done|]. by eexists.
    + f_equal. unfold lookupDownload in Hl.
      destruct (decide (id = "__proto__")) as [->|Hne].
      * by destruct (prototype (run emptyWorld evs)).
      * destruct (activeDownloads (run emptyWorld evs) !! id); [done|].
        destruct (decide (id ∈ objectPrototypeNames)) as [Hin|Hin]; [done|].
        rewrite decide_False; [done|].
        intros [?|[-> [p Hp]]]; [done|]. rewrite Hp in Hl.
        by rewrite decide_True in Hl.
Qed.

(** X9. In every run of the process there is exactly one [add-download]
    message per session, sent in the order in which the sessions were
    started and carrying the id of its session. *)
Theorem X9_one_add_download_per_session (evs : list Event) :
  add_id <$> sent (run emptyWorld evs) = downloadId <$> heap (run emptyWorld evs) ∧
  length (sent (run emptyWorld evs)) = length (heap (run emptyWorld evs)).
Proof.
  destruct (registryOk_reachable evs) as [_ H]. split; [exact H|].
  by rewrite <- (length_fmap add_id), H, length_fmap.
Qed.

(** *** Starting and cancelling *)

(** X10. Cancelling the download that [startDownload] has just started, by
    the id it sent, answers [ok], destroys every stream of that session with
    reason [cancelled] and publishes [cancelled] as its only patch; the
    sessions that existed before and the files on disk, the new temporary
    files included, stay as they are. *)
Theorem X10_start_then_cancel (w : World) (req : Request) (cfg : Settings) (now : Z) :
  (cancelDownload (createUID (uidCalls w)) (startDownload req cfg now w).1).2 = "ok" ∧
  (∃ s,
     heap (cancelDownload (createUID (uidCalls w)) (startDownload req cfg now w).1).1
       = heap w ++ [s] ∧
     downloadId s = createUID (uidCalls w) ∧
     sourceStreams s = replicate (length (sources req)) (Destroyed cancelledReason) ∧
     updates s = [statusProps Cancelled] ∧
     recordedStatus s = Cancelled) ∧
  files (cancelDownload (createUID (uidCalls w)) (startDownload req cfg now w).1).1
    = files (startDownload req cfg now w).1.
Proof using createUID path_join.
  destruct (startDownload_closed_form w req cfg now) as (Hheap & _).
  unfold cancelDownload.
  rewrite (startDownload_lookup createUID path_join w req cfg now). cbn [fst snd].
  split; [reflexivity|]. rewrite Hheap.
  rewrite lookup_app_r, Nat.sub_diag by lia. cbn [lookup list_lookup setHeap heap files].
  rewrite Hheap, insert_app_r_alt, Nat.sub_diag by lia. cbn [insert list_insert].
  split; [|reflexivity].
  eexists. split; [reflexivity|]. cbn. rewrite fmap_replicate. done.
Qed.

(** *** Sessions do not interfere *)

(** X11. An event changes at most the session it is for: every existing
    session other than the target of the event (the session a stream or
    encoder event names, the session a cancelled id is registered for; a
    start has no target) is the same after the step. *)
Theorem X11_other_sessions_untouched (w : World) (ev : Event) (ref : nat) (s : Session) :
  heap w !! ref = Some s → target w ev ≠ Some ref →
  heap (step w ev) !! ref = Some s.
Proof.
  intros Hs Ht. destruct ev as [req cfg now|r i sev now now'|r ok now|id]; simpl in *.
  - rewrite lookup_app_l; [done|]. by eapply lookup_lt_Some.
  - destruct (heap w !! r) as [s0|]; [|done]. simpl.
    rewrite list_lookup_insert_ne; [done|congruence].
  - destruct (heap w !! r) as [s0|]; [|done]. simpl.
    rewrite list_lookup_insert_ne; [done|congruence].
  - unfold cancelDownload. simpl.
    destruct (lookupDownload w id) as [r| |]; [|done..].
    destruct (heap w !! r) as [s0|]; [|done]. simpl.
    rewrite list_lookup_insert_ne; [done|congruence].
Qed.

(** *** The published aggregate *)

(** X12. In every reachable session, the patch published for a progress
    sample carries in its [progress] field the sum, over the streams of the
    session, of the progress each stream reported last, and in its [size]
    field the sum of the sizes each stream reported last (0 for a stream that
    has not reported yet), the sample itself included. *)
Theorem X12_published_totals_are_sums (evs : list Event) (ref : nat) (s : Session)
    (i : nat) (c : Closure) (progress size now now' : Z) :
  heap (run emptyWorld evs) !! ref = Some s →
  closures s !! i = Some c →
  ∃ p,
    last (updates (on_progress i progress size now now' s)) = Some p ∧
    p_progress p
      = Some (sumOf lastProgress (closures (on_progress i progress size now now' s))) ∧
    p_size p
      = Some (sumOf lastSize (closures (on_progress i progress size now now' s))) ∧
    sumOf lastProgress (closures (on_progress i progress size now now' s))
      = sumOf lastProgress (closures s) - lastProgress c + progress ∧
    sumOf lastSize (closures (on_progress i progress size now now' s))
      = sumOf lastSize (closures s) - lastSize c + size.
Proof.
  intros Hs Hc.
  pose proof (Forall_lookup_1 _ _ _ _
    (totalsAgree_reachable createUID mkdirIfNotPresent path_join path_resolve evs) Hs)
    as Hagree.
  destruct (totalsAgree_progress i progress size now now' s Hagree) as [Hp Hz].
  destruct (on_progress_patch s i c progress size now now' Hc)
    as (p & Hup & Hpp & _ & Hps & _).
  assert (Htp : totalProgress (on_progress i progress size now now' s)
                = totalProgress s + (progress - lastProgress c)).
  { unfold on_progress. by rewrite Hc. }
  assert (Hts : totalSize (on_progress i progress size now now' s)
                = totalSize s - lastSize c + size).
  { unfold on_progress. by rewrite Hc. }
  assert (Hcl : closures (on_progress i progress size now now' s)
                = <[i := {| destinationDirectory := destinationDirectory c;
                            lastProgressTimestamp := now';
                            lastProgress := progress; lastSize := size |}]>
                    (closures s)).
  { unfold on_progress. by rewrite Hc. }
  exists p. rewrite Hup, last_snoc. split; [done|].
  rewrite Hpp, Hps, <- Htp, <- Hts, Hp, Hz. split; [done|]. split; [done|].
  rewrite Hcl.
  split; [rewrite (sumOf_insert lastProgress _ _ _ _ Hc)
        |rewrite (sumOf_insert lastSize _ _ _ _ Hc)]; reflexivity.
Qed.

(** *** Post-processing *)

Lemma snoc_split {A} (us : list A) (p : A) us1 q us2 :
  us ++ [p] = us1 ++ q :: us2 →
  (us2 = [] ∧ us = us1 ∧ p = q) ∨ (∃ us2', us2 = us2' ++ [p] ∧ us = us1 ++ q :: us2').
Proof.
  destruct us2 as [|x us2 _] using rev_ind.
  - intros [-> ->]%app_inj_tail. by left.
  - change (us1 ++ q :: us2 ++ [x]) with (us1 ++ (q :: us2) ++ [x]).
    rewrite app_assoc. intros [-> ->]%app_inj_tail. right. by exists us2.
Qed.

Lemma on_progress_dirs i progress size now now' s :
  destinationDirectory <$> closures (on_progress i progress size now now' s)
    = destinationDirectory <$> closures s ∧
  (updates (on_progress i progress size now now' s) = updates s ∨
   ∃ p, p_status p = None ∧
        updates (on_progress i progress size now now' s) = updates s ++ [p]).
Proof.
  unfold on_progress. destruct (closures s !! i) as [c|] eqn:Hc; [|by split; [|left]].
  simpl. split; [|right; eexists; split; [|reflexivity]; reflexivity].
  rewrite list_fmap_insert. apply list_insert_id. by rewrite list_lookup_fmap, Hc.
Qed.

Lemma postProcessOk_frame (s s' : Session) :
  (done s ≤ done s')%nat → request s' = request s →
  encoderCalls s' = encoderCalls s → pending s' = pending s →
  downloadDirectory s' = downloadDirectory s →
  destinationDirectory <$> closures s' = destinationDirectory <$> closures s →
  (updates s' = updates s ∨
   ∃ p, p_status p ≠ Some Finish ∧ updates s' = updates s ++ [p]) →
  postProcessOk path_join s → postProcessOk path_join s'.
Proof.
  intros Hd Hr He Hp Hdir Hc Hu (H1 & H2 & H3 & H4 & H5 & H6).
  unfold postProcessOk, expectedOp, outputPath. rewrite Hr, He, Hp, Hdir, Hc.
  split; [intros; apply H1; lia|]. split; [done|]. split; [done|]. split; [done|].
  destruct Hu as [Hu|(p & Hp' & Hu)]; rewrite Hu; [done|]. split.
  - intros Hne. destruct (H5 Hne) as (q & Hq & Hst). exists q.
    split; [|done]. apply elem_of_app. by left.
  - intros us1 q us2 Heq Hfin.
    apply snoc_split in Heq as [(_ & _ & Hpq)|(us2' & _ & Heq)];
      [by subst q|by eapply H6].
Qed.

Lemma postProcessOk_reachable (evs : list Event) :
  Forall (postProcessOk path_join) (heap (run emptyWorld evs)).
Proof.
  apply (run_invariant createUID mkdirIfNotPresent path_join path_resolve
           (postProcessOk path_join) (λ _, True)); [..|by apply Forall_true|constructor].
  - intros id req cfg w. unfold postProcessOk. simpl.
    split; [done|]. split; [lia|]. split; [by intros ? ?%elem_of_nil|].
    split; [by intros ? ?%elem_of_nil|]. split; [done|].
    intros us1 p us2 Heq. by destruct us1.
  - intros ref i sev now now' s fs _ Hok.
    destruct sev as [chunk progress size| |e]; unfold deliver; cbn [fst snd].
    + destruct (on_progress_static i progress size now now' s)
        as (Hr & _ & _ & _ & He & Hp & Hd & Hdir).
      destruct (on_progress_dirs i progress size now now' s) as [Hc Hu].
      apply (postProcessOk_frame s); [lia|done..| |done].
      destruct Hu as [Hu|(p & Hst & Hu)]; [by left|right].
      exists p. split; [by rewrite Hst|done].
    + destruct (closures s !! i) as [c|] eqn:Hc;
        [|unfold on_end; by rewrite Hc].
      destruct (on_end_eq mkdirIfNotPresent path_join path_resolve i s c Hc) as [dir ->].
      case_decide as Hdone.
      * destruct Hok as (H1 & H2 & H3 & H4 & H5 & H6).
        assert (He : encoderCalls s = []) by (apply H1; lia).
        assert (Hp : pending s = []).
        { destruct (pending s) as [|f ps] eqn:Hps; [done|].
          destruct (H4 f) as (call & Hcall & _); [by left|].
          rewrite He in Hcall. by apply elem_of_nil in Hcall. }
        unfold postProcessOk, expectedOp, outputPath. simpl. rewrite He, Hp. simpl.
        split; [lia|]. split; [lia|]. split.
        { intros call ->%list_elem_of_singleton. simpl. split; [done|]. split; [|done].
          apply list_elem_of_lookup. exists i. by rewrite list_lookup_fmap, Hc. }
        split.
        { intros f ->%list_elem_of_singleton. eexists. split; [by left|done]. }
        split.
        { intros _. eexists. split; [apply elem_of_app; right; by left|done]. }
        intros us1 p us2 Heq Hfin.
        apply snoc_split in Heq as [(_ & _ & Hpq)|(us2' & _ & Heq)]; [by subst p|].
        destruct (H6 _ _ _ Heq Hfin) as (_ & call & Hcall & _).
        rewrite He in Hcall. by apply elem_of_nil in Hcall.
      * apply (postProcessOk_frame s); simpl; [lia|done..|by left|done].
    + destruct (on_error_static i e s fs) as (Hr & _ & He & Hp & Hd & Hdir & _).
      destruct (on_error_frame i e s fs) as (Hc & _ & _ & _ & Hu).
      apply (postProcessOk_frame s); [lia|done..|by rewrite Hc| |done].
      destruct Hu as [Hu|Hu]; [by left|right].
      eexists. split; [|exact Hu]. done.
  - intros ok now s fs Hok. pose proof Hok as (H1 & H2 & H3 & H4 & H5 & H6).
    unfold on_settled. destruct (pending s) as [|f rest] eqn:Hp; [done|].
    cbn [fst].
    assert (Hcall : ∃ call, call ∈ encoderCalls s ∧ output call = f)
      by (apply H4; by left).
    assert (Hconv : ∃ q, q ∈ updates s ∧ p_status q = Some Convert).
    { apply H5. destruct Hcall as (call & Hin & _). intros Hnil.
      rewrite Hnil in Hin. by apply elem_of_nil in Hin. }
    unfold postProcessOk, expectedOp, outputPath.
    destruct ok; simpl.
    + split; [done|]. split; [done|]. split; [done|].
      split; [intros f' Hf'; apply H4; by right|].
      split.
      { intros _. destruct Hconv as (q & Hq & Hst). exists q.
        split; [apply elem_of_app; by left|done]. }
      intros us1 p us2 Heq Hfin.
      apply snoc_split in Heq as [(_ & Hus & Hpq)|(us2' & _ & Heq)];
        [|by eapply H6].
      subst p. rewrite <- Hus. split; [done|].
      destruct Hcall as (call & Hin & Hout). exists call. by rewrite Hout.
    + split; [done|]. split; [done|]. split; [done|].
      split; [intros f' Hf'; apply H4; by right|].
      split.
      { intros _. destruct Hconv as (q & Hq & Hst). exists q.
        split; [apply elem_of_app; by left|done]. }
      intros us1 p us2 Heq Hfin.
      apply snoc_split in Heq as [(_ & _ & Hpq)|(us2' & _ & Heq)];
        [by subst p|by eapply H6].
  - intros s Hok. apply (postProcessOk_frame s); simpl; [lia|done..| |done].
    right. eexists. split; [|reflexivity]. done.
Qed.

(** X13. In every run of the process, a session calls the encoder at most
    once, and not before the [end] events it has handled are as many as its
    sources: until then there is no call and no pending promise. *)
Theorem X13_encoder_called_at_most_once (evs : list Event) (s : Session) :
  s ∈ heap (run emptyWorld evs) →
  (length (encoderCalls s) ≤ 1)%nat ∧
  ((done s < length (sources (request s)))%nat →
   encoderCalls s = [] ∧ pending s = []).
Proof.
  intros Hs.
  destruct (proj1 (Forall_forall _ _) (postProcessOk_reachable evs) s Hs)
    as (H1 & H2 & _ & H4 & _).
  split; [done|]. intros Hd. pose proof (H1 Hd) as He. split; [done|].
  destruct (pending s) as [|f ps]; [done|].
  destruct (H4 f) as (call & Hcall & _); [by left|].
  rewrite He in Hcall. by apply elem_of_nil in Hcall.
Qed.

(** X14. In every run of the process, every encoder call of a session is
    [convert] when the session has exactly one source and [merge] otherwise,
    its input is one of the temporary files of the session, and its output is
    the sanitised title with the requested format as extension, inside the
    download directory the session ended up with. *)
Theorem X14_encoder_call_shape (evs : list Event) (s : Session) (call : EncoderCall) :
  s ∈ heap (run emptyWorld evs) → call ∈ encoderCalls s →
  op call = (if decide (length (sources (request s)) = 1%nat)
             then OpConvert else OpMerge) ∧
  input call ∈ destiantions s ∧
  output call =
    path_join (downloadDirectory s)
      (Title.filteredTitle (title (video (request s))) +:+ "." +:+ format (request s)).
Proof.
  intros Hs Hcall.
  destruct (proj1 (Forall_forall _ _) (postProcessOk_reachable evs) s Hs)
    as (_ & _ & H3 & _).
  destruct (proj1 (Forall_forall _ _) (wellShaped_reachable evs) s Hs) as (Hdirs & _).
  destruct (H3 call Hcall) as (Hop & Hin & Hout). rewrite Hdirs in Hin. done.
Qed.

(** X15. In every run of the process, a [finish] patch of a session is
    preceded by a [convert] patch of that session, and the destination file
    it carries is the output path that was given to the encoder. *)
Theorem X15_finish_follows_convert (evs : list Event) (s : Session)
    (us1 us2 : list Props) (p : Props) :
  s ∈ heap (run emptyWorld evs) →
  updates s = us1 ++ p :: us2 → p_status p = Some Finish →
  (∃ q, q ∈ us1 ∧ p_status q = Some Convert) ∧
  ∃ call, encoderCalls s = [call] ∧ p_destinationFile p = Some (output call).
Proof.
  intros Hs Hus Hfin.
  destruct (proj1 (Forall_forall _ _) (postProcessOk_reachable evs) s Hs)
    as (_ & H2 & _ & _ & _ & H6).
  destruct (H6 _ _ _ Hus Hfin) as (Hconv & call & Hcall & Hfile).
  split; [done|]. exists call. split; [|done].
  destruct (encoderCalls s) as [|c [|c' cs]]; simpl in H2.
  - by apply elem_of_nil in Hcall.
  - by apply list_elem_of_singleton in Hcall as ->.
  - lia.
Qed.

(** *** Cleanup *)

Lemma unlinkAll_foreign (paths : list string) (fs : gset string) (f : string) :
  f ∈ fs → f ∉ paths → f ∈ (unlinkAll paths fs).1.
Proof.
  revert fs. induction paths as [|p paths IH]; intros fs Hf Hp; simpl; [done|].
  unfold unlinkSync. case_decide; [|done].
  apply IH; [|by intros ?; apply Hp; right].
  apply elem_of_difference. split; [done|].
  intros ->%elem_of_singleton. apply Hp. by left.
Qed.

Lemma unlinkAll_missing (paths : list string) (fs : gset string) (d : string) :
  d ∈ paths → d ∉ fs → (unlinkAll paths fs).2 = true.
Proof.
  revert fs. induction paths as [|p paths IH]; intros fs Hd Hfs; simpl.
  - by apply elem_of_nil in Hd.
  - unfold unlinkSync. case_decide as Hp; [|done].
    apply elem_of_cons in Hd as [->|Hd]; [done|].
    apply IH; [done|]. intros [? _]%elem_of_difference. done.
Qed.

Lemma on_error_files i e s fs :
  (on_error i e (s, fs)).2 = fs ∨
  (on_error i e (s, fs)).2 = (unlinkAll (destiantions s) fs).1.
Proof.
  unfold on_error. destruct (closures s !! i); [|by left].
  destruct (is_cancelled e); [by left|]. right. simpl.
  by destruct (unlinkAll (destiantions s) fs) as [fs' []].
Qed.

Lemma on_settled_files ok now s fs :
  (on_settled ok now (s, fs)).2 = fs ∨
  (on_settled ok now (s, fs)).2 = (unlinkAll (destiantions s) fs).1.
Proof.
  unfold on_settled. destruct (pending s); [by left|]. right. by destruct ok.
Qed.

(** X16. When the encoder promise of a session settles while the temporary
    files of the session are on disk (and pairwise distinct), all of them are
    unlinked whether the encoder succeeded or failed, and no other file is;
    on success [finish] is published with the time and the destination file
    of the call, on failure [errored]. *)
Theorem X16_cleanup_after_post_processing (s : Session) (fs : gset string)
    (ok : bool) (now : Z) (f : string) (rest : list string) :
  pending s = f :: rest →
  NoDup (destiantions s) →
  (∀ d, d ∈ destiantions s → d ∈ fs) →
  (on_settled ok now (s, fs)).2 = fs ∖ list_to_set (destiantions s) ∧
  updates (on_settled ok now (s, fs)).1 =
    updates s ++ [if ok then finishProps now f else statusProps Errored] ∧
  recordedStatus (on_settled ok now (s, fs)).1 = (if ok then Finish else Errored) ∧
  pending (on_settled ok now (s, fs)).1 = rest.
Proof.
  intros Hp Hnd Hin. unfold on_settled. rewrite Hp.
  destruct ok; cbn [fst snd]; simpl;
    rewrite (unlinkAll_present _ _ Hnd Hin); simpl;
    (split; [done|]); (split; [done|]); (split; [|done]);
    unfold recordedStatus; simpl; by rewrite foldl_app.
Qed.

(** X17. A temporary file that an event removes from the disk is a
    temporary file of the session the event is for: the cleanup of a session
    never deletes a file that belongs to no stream of that session, and a
    start or a cancel request deletes nothing. *)
Theorem X17_only_own_temporary_files_removed (w : World) (ev : Event) (f : string) :
  f ∈ files w → f ∉ files (step w ev) →
  ∃ ref s, target w ev = Some ref ∧ heap w !! ref = Some s ∧ f ∈ destiantions s.
Proof.
  intros Hf Hgone.
  destruct ev as [req cfg now|r i sev now now'|r ok now|id]; unfold step in Hgone;
    cbn [target].
  - destruct Hgone.
    destruct (startDownload_closed_form w req cfg now) as (_ & -> & _).
    apply elem_of_union. by right.
  - destruct (heap w !! r) as [s|] eqn:Hs; [|done]. cbn [setHeap files] in Hgone.
    assert (Hfs : (deliver i sev now now' (s, files w)).2 = files w ∨
                  (deliver i sev now now' (s, files w)).2
                    = (unlinkAll (destiantions s) (files w)).1).
    { destruct sev as [chunk progress size| |e]; unfold deliver; cbn [fst snd];
        [by left|by left|apply on_error_files]. }
    destruct Hfs as [Hfs|Hfs]; rewrite Hfs in Hgone; [done|].
    exists r, s. split; [done|]. split; [done|].
    destruct (decide (f ∈ destiantions s)) as [|Hno]; [done|].
    destruct Hgone. by apply unlinkAll_foreign.
  - destruct (heap w !! r) as [s|] eqn:Hs; [|done]. cbn [setHeap files] in Hgone.
    destruct (on_settled_files ok now s (files w)) as [Hfs|Hfs];
      rewrite Hfs in Hgone; [done|].
    exists r, s. split; [done|]. split; [done|].
    destruct (decide (f ∈ destiantions s)) as [|Hno]; [done|].
    destruct Hgone. by apply unlinkAll_foreign.
  - destruct Hgone. unfold cancelDownload.
    destruct (lookupDownload w id) as [r| |]; [|done..]. simpl.
    by destruct (heap w !! r).
Qed.

(** X18. When a stream fails (cause other than [cancelled]) while one of
    the temporary files of the session is not on disk, for instance because
    the session was cleaned up before, [unlinkSync] throws: the streams are
    destroyed, but no patch is published, so the failure is not reported as
    [errored]; no file is created. *)
Theorem X18_error_with_missing_file_not_reported (s : Session) (fs : gset string)
    (i : nat) (c : Closure) (e : Cause) (d : string) :
  closures s !! i = Some c → is_cancelled e = false →
  d ∈ destiantions s → d ∉ fs →
  updates (on_error i e (s, fs)).1 = updates s ∧
  Forall isDestroyed (sourceStreams (on_error i e (s, fs)).1) ∧
  (on_error i e (s, fs)).2 ⊆ fs.
Proof.
  intros Hc He Hd Hfs. unfold on_error. rewrite Hc, He.
  cbn [destiantions setSourceStreams].
  pose proof (unlinkAll_missing _ _ _ Hd Hfs) as Hthrew.
  pose proof (unlinkAll_subseteq (destiantions s) fs) as Hsub.
  destruct (unlinkAll (destiantions s) fs) as [fs' threw]. simpl in *. subst threw.
  simpl. split; [done|]. split; [apply Forall_destroy|done].
Qed.

(** *** The first sample of a stream *)

(** X19. For the first progress sample handled in a freshly started session,
    the previous progress and the previous timestamp of the stream are both
    0: the patch carries the sample's own progress and size, and its speed is
    the binary64 product of a quarter of [0 + progress] and the absolute time
    of the sample (milliseconds since the epoch, less 0), not of an
    interval. *)
Theorem X19_first_sample_speed (w : World) (req : Request) (cfg : Settings) (now0 : Z)
    (s : Session) (i : nat) (progress size now now' : Z) :
  heap (startDownload req cfg now0 w).1 !! length (heap w) = Some s →
  (i < length (sources req))%nat →
  ∃ p,
    last (updates (on_progress i progress size now now' s)) = Some p ∧
    p_progress p = Some progress ∧
    p_size p = Some size ∧
    p_speed p =
      Some (SpecFloat.SFmul 53 1024
              (SpecFloat.SFdiv 53 1024
                 (SpecFloat.SFadd 53 1024 (numberOfZ 0) (numberOfZ progress))
                 (numberOfZ 4))
              (SpecFloat.SFsub 53 1024 (numberOfZ now) (numberOfZ 0))).
Proof using createUID path_join.
  destruct (startDownload_closed_form w req cfg now0) as (Hheap & _).
  rewrite Hheap, lookup_app_r, Nat.sub_diag by lia. intros [= <-] Hi.
  destruct (lookup_lt_is_Some_2
              (tempPaths (temporaryDirectory cfg) (S (uidCalls w)) (sources req)) i)
    as [d Hd]; [by rewrite tempPaths_length|].
  assert (Hc : (freshClosure <$> tempPaths (temporaryDirectory cfg) (S (uidCalls w))
                                   (sources req)) !! i = Some (freshClosure d))
    by (by rewrite list_lookup_fmap, Hd).
  match goal with |- context [on_progress _ _ _ _ _ ?s0] =>
    destruct (on_progress_patch s0 i (freshClosure d) progress size now now' Hc)
      as (p & Hup & Hpp & Hsp & Hps & _)
  end.
  exists p. rewrite Hup, last_snoc. split; [done|].
  cbn [totalProgress totalSize freshClosure lastProgress lastSize
       lastProgressTimestamp] in Hpp, Hsp, Hps.
  rewrite Hpp, Hps, Hsp. unfold speedOf, toFixed1.
  replace (0 + (progress - 0)) with progress by lia.
  replace (0 - 0 + size) with size by lia.
  done.
Qed.

End MoreProperties.

(** ** The further properties on concrete runs *)

Lemma X7_sessions_stay_aligned_witness :
  ∃ s,
    heap (Demo.run emptyWorld Demo.samples) !! 0%nat = Some s ∧
    destinationDirectory <$> closures s = destiantions s ∧
    length (destiantions s) = length (sources (request s)) ∧
    length (sourceStreams s) = length (sources (request s)).
Proof.
  eexists. split; [vm_compute; reflexivity|].
  apply (X7_sessions_stay_aligned Demo.uid Demo.mkdir Demo.join Demo.join Demo.samples).
  apply list_elem_of_lookup. exists 0%nat. vm_compute. reflexivity.
Defined.

Lemma X8_cancel_reaches_only_its_session_witness :
  (∃ ref s,
     heap (Demo.run emptyWorld Demo.samples) !! ref = Some s ∧ downloadId s = "a" ∧
     cancelDownload "a" (Demo.run emptyWorld Demo.samples)
       = (setHeap ref (cancel s) (files (Demo.run emptyWorld Demo.samples))
            (Demo.run emptyWorld Demo.samples),
          Resolved "ok")) ∧
  cancelDownload "toString" (Demo.run emptyWorld Demo.samples)
    = (Demo.run emptyWorld Demo.samples,
       Rejected "TypeError: item.cancel is not a function") ∧
  cancelDownload "b" (Demo.run emptyWorld Demo.samples)
    = (Demo.run emptyWorld Demo.samples, Resolved "ok").
Proof.
  assert (Hnone : ∀ id, id ≠ "a" →
            ∀ r s, heap (Demo.run emptyWorld Demo.samples) !! r = Some s →
                   downloadId s ≠ id).
  { intros id Hid r s Hs. vm_compute in Hs.
    destruct r as [|r]; [|discriminate Hs]. injection Hs as <-. cbn [downloadId].
    intros <-. by apply Hid. }
  split; [|split].
  - apply (proj1 (X8_cancel_reaches_only_its_session Demo.uid Demo.mkdir Demo.join
                    Demo.join Demo.samples "a")).
    eexists 0%nat, _. split; [vm_compute; reflexivity|reflexivity].
  - exact (proj2 (X8_cancel_reaches_only_its_session Demo.uid Demo.mkdir Demo.join
                    Demo.join Demo.samples "toString")
             (Hnone "toString" ltac:(discriminate))).
  - exact (proj2 (X8_cancel_reaches_only_its_session Demo.uid Demo.mkdir Demo.join
                    Demo.join Demo.samples "b")
             (Hnone "b" ltac:(discriminate))).
Defined.

Lemma X11_other_sessions_untouched_witness :
  ∃ s,
    heap (Demo.run emptyWorld DemoRuns.pair) !! 0%nat = Some s ∧
    target (Demo.run emptyWorld DemoRuns.pair)
      (Stream 1 0 (EvError (CauseError "ECONNRESET")) 7 7) ≠ Some 0%nat ∧
    heap (Demo.step (Demo.run emptyWorld DemoRuns.pair)
            (Stream 1 0 (EvError (CauseError "ECONNRESET")) 7 7)) !! 0%nat = Some s.
Proof.
  eexists. split; [vm_compute; reflexivity|].
  assert (Ht : target (Demo.run emptyWorld DemoRuns.pair)
                 (Stream 1 0 (EvError (CauseError "ECONNRESET")) 7 7) ≠ Some 0%nat)
    by (simpl; discriminate).
  split; [exact Ht|].
  refine (X11_other_sessions_untouched Demo.uid Demo.mkdir Demo.join Demo.join
            (Demo.run emptyWorld DemoRuns.pair)
            (Stream 1 0 (EvError (CauseError "ECONNRESET")) 7 7) 0%nat _ _ Ht).
  vm_compute. reflexivity.
Defined.

Lemma X12_published_totals_are_sums_witness :
  ∃ s c,
    heap (Demo.run emptyWorld Demo.samples) !! 0%nat = Some s ∧
    closures s !! 1%nat = Some c ∧
    ∃ p,
      last (updates (on_progress 1 2100 2200 40 40 s)) = Some p ∧
      p_progress p = Some 3100 ∧ p_size p = Some 3200.
Proof.
  eexists _, _. split; [vm_compute; reflexivity|]. split; [reflexivity|].
  match goal with |- ∃ p, last (updates (on_progress _ _ _ _ _ ?s)) = _ ∧ _ =>
    destruct (X12_published_totals_are_sums Demo.uid Demo.mkdir Demo.join Demo.join
                Demo.samples 0%nat s 1%nat _ 2100 2200 40 40
                ltac:(vm_compute; reflexivity) ltac:(reflexivity))
      as (p & H1 & H2 & H3 & _)
  end.
  exists p. split; [exact H1|]. split; [exact H2|exact H3].
Defined.

Lemma X13_encoder_called_at_most_once_witness :
  ∃ s,
    heap (Demo.run emptyWorld Demo.samples) !! 0%nat = Some s ∧
    (done s < length (sources (request s)))%nat ∧
    (length (encoderCalls s) ≤ 1)%nat ∧ encoderCalls s = [] ∧ pending s = [].
Proof.
  eexists. split; [vm_compute; reflexivity|].
  assert (Hd : (1 < 2)%nat) by lia.
  split; [exact Hd|].
  match goal with |- (length (encoderCalls ?s) ≤ 1)%nat ∧ _ =>
    destruct (X13_encoder_called_at_most_once Demo.uid Demo.mkdir Demo.join Demo.join
                Demo.samples s
                ltac:(apply list_elem_of_lookup; exists 0%nat; vm_compute; reflexivity))
      as [H1 H2]
  end.
  split; [exact H1|]. exact (H2 Hd).
Defined.

Lemma X14_encoder_call_shape_witness :
  ∃ s call,
    heap (Demo.run emptyWorld DemoRuns.converting) !! 0%nat = Some s ∧
    encoderCalls s = [call] ∧
    op call = OpConvert ∧
    input call ∈ destiantions s ∧
    output call = "out/My Video Part 1.mp3".
Proof.
  eexists _, _. split; [vm_compute; reflexivity|]. split; [reflexivity|].
  match goal with |- op ?call = _ ∧ _ ∈ destiantions ?s ∧ _ =>
    destruct (X14_encoder_call_shape Demo.uid Demo.mkdir Demo.join Demo.join
                DemoRuns.converting s call
                ltac:(apply list_elem_of_lookup; exists 0%nat; vm_compute; reflexivity)
                ltac:(simpl; by left))
      as (H1 & H2 & H3)
  end.
  split; [exact H1|]. split; [exact H2|exact H3].
Defined.

Lemma X15_finish_follows_convert_witness :
  ∃ s q p,
    heap (Demo.run emptyWorld DemoRuns.finishing) !! 0%nat = Some s ∧
    updates s = [q] ++ p :: [] ∧ p_status p = Some Finish ∧
    (∃ q', q' ∈ [q] ∧ p_status q' = Some Convert) ∧
    ∃ call, encoderCalls s = [call] ∧ p_destinationFile p = Some (output call).
Proof.
  eexists _, _, _. split; [vm_compute; reflexivity|].
  split; [reflexivity|]. split; [reflexivity|].
  refine (X15_finish_follows_convert Demo.uid Demo.mkdir Demo.join Demo.join
            DemoRuns.finishing _ _ _ _ _ _ _).
  - apply list_elem_of_lookup. exists 0%nat. vm_compute. reflexivity.
  - reflexivity.
  - reflexivity.
Defined.

Lemma X16_cleanup_after_post_processing_witness :
  ∃ s f,
    heap (Demo.run emptyWorld DemoRuns.converting) !! 0%nat = Some s ∧
    pending s = [f] ∧
    (on_settled false 9 (s, files (Demo.run emptyWorld DemoRuns.converting))).2
      = files (Demo.run emptyWorld DemoRuns.converting) ∖ list_to_set (destiantions s) ∧
    updates (on_settled false 9 (s, files (Demo.run emptyWorld DemoRuns.converting))).1
      = updates s ++ [statusProps Errored] ∧
    recordedStatus
      (on_settled false 9 (s, files (Demo.run emptyWorld DemoRuns.converting))).1
      = Errored ∧
    pending (on_settled false 9 (s, files (Demo.run emptyWorld DemoRuns.converting))).1
      = [].
Proof.
  eexists _, _. split; [vm_compute; reflexivity|]. split; [reflexivity|].
  refine (X16_cleanup_after_post_processing _ _ false 9 _ [] _ _ _).
  - reflexivity.
  - apply (bool_decide_unpack _). vm_compute. exact I.
  - intros d Hd. apply (bool_decide_unpack _). cbn [destiantions] in Hd.
    apply elem_of_cons in Hd as [->|Hd]; [vm_compute; exact I|]. inversion Hd.
Defined.

Lemma X17_only_own_temporary_files_removed_witness :
  "tmp/b.m4a" ∈ files (Demo.run emptyWorld DemoRuns.converting) ∧
  ("tmp/b.m4a" ∉ files (Demo.step (Demo.run emptyWorld DemoRuns.converting)
                          (EncoderSettled 0 true 8))) ∧
  ∃ ref s,
    target (Demo.run emptyWorld DemoRuns.converting) (EncoderSettled 0 true 8) = Some ref ∧
    heap (Demo.run emptyWorld DemoRuns.converting) !! ref = Some s ∧
    "tmp/b.m4a" ∈ destiantions s.
Proof.
  assert (H1 : "tmp/b.m4a" ∈ files (Demo.run emptyWorld DemoRuns.converting))
    by (apply (bool_decide_unpack _); vm_compute; exact I).
  assert (H2 : "tmp/b.m4a" ∉ files (Demo.step (Demo.run emptyWorld DemoRuns.converting)
                                     (EncoderSettled 0 true 8)))
    by (apply (bool_decide_unpack _); vm_compute; exact I).
  split; [exact H1|]. split; [exact H2|].
  exact (X17_only_own_temporary_files_removed Demo.uid Demo.mkdir Demo.join Demo.join
           (Demo.run emptyWorld DemoRuns.converting) (EncoderSettled 0 true 8)
           "tmp/b.m4a" H1 H2).
Defined.

Lemma X18_error_with_missing_file_not_reported_witness :
  ∃ s c,
    heap (Demo.run emptyWorld DemoRuns.finishing) !! 0%nat = Some s ∧
    closures s !! 0%nat = Some c ∧
    is_cancelled (CauseError "late") = false ∧
    "tmp/b.m4a" ∈ destiantions s ∧
    ("tmp/b.m4a" ∉ files (Demo.run emptyWorld DemoRuns.finishing)) ∧
    updates (on_error 0 (CauseError "late")
               (s, files (Demo.run emptyWorld DemoRuns.finishing))).1 = updates s ∧
    Forall isDestroyed
      (sourceStreams (on_error 0 (CauseError "late")
                        (s, files (Demo.run emptyWorld DemoRuns.finishing))).1) ∧
    (on_error 0 (CauseError "late")
       (s, files (Demo.run emptyWorld DemoRuns.finishing))).2
      ⊆ files (Demo.run emptyWorld DemoRuns.finishing).
Proof.
  eexists _, _. split; [vm_compute; reflexivity|]. split; [reflexivity|].
  split; [reflexivity|].
  match goal with |- ?a ∈ ?l ∧ _ => assert (Hd : a ∈ l) by (simpl; by left) end.
  split; [exact Hd|].
  assert (Hfs : "tmp/b.m4a" ∉ files (Demo.run emptyWorld DemoRuns.finishing))
    by (apply (bool_decide_unpack _); vm_compute; exact I).
  split; [exact Hfs|].
  refine (X18_error_with_missing_file_not_reported _ _ 0 _ (CauseError "late")
            "tmp/b.m4a" _ eq_refl Hd Hfs).
  reflexivity.
Defined.

Lemma X19_first_sample_speed_witness :
  ∃ s p v,
    heap (startDownload Demo.uid Demo.join Demo.twoStreams Demo.cfg 5 emptyWorld).1
      !! length (heap emptyWorld) = Some s ∧
    (1 < length (sources Demo.twoStreams))%nat ∧
    last (updates (on_progress 1 123457 2000000 1762000000123 1762000000124 s))
      = Some p ∧
    p_progress p = Some 123457 ∧ p_size p = Some 2000000 ∧
    p_speed p = Some v ∧ integerValue v = Some 54382808503796304.
Proof.
  eexists.
  match goal with |- ∃ p v, ?h = Some ?s ∧ _ =>
    assert (Hs : h = Some s) by (vm_compute; reflexivity)
  end.
  assert (Hi : (1 < length (sources Demo.twoStreams))%nat) by (simpl; lia).
  destruct (X19_first_sample_speed Demo.uid Demo.join emptyWorld Demo.twoStreams Demo.cfg 5
              _ 1%nat 123457 2000000 1762000000123 1762000000124 Hs Hi)
    as (p & Hp & Hpr & Hsz & Hsp).
  exists p. eexists. split; [exact Hs|]. split; [exact Hi|]. split; [exact Hp|].
  split; [exact Hpr|]. split; [exact Hsz|]. split; [exact Hsp|].
  vm_compute. reflexivity.
Defined.
